(** * mazette: resolution, cache, lock gate, member selection, install

    A shallow embedding of [mazette.py] (GitHub release asset manager) and
    the properties of its cache, resolver, lock gate, archive member filter
    and installer.

    Conventions of the embedding.
    - A Python [str] and a Python [bytes] are both a [string]: a list of
      8-bit characters.  A [str] is read as text whose code points are
      below 256; [encode_utf8] turns it into bytes.
    - The file system is a finite map from normalised path strings to
      nodes; the remote side (HTTP) is a function from URLs to replies.
    - A function with effects is a state transformer over [world] that
      returns either a value or the exception it raised, together with the
      world it left behind.
    - [hashlib.sha256] is the real SHA-256, so digests can be evaluated. *)

From Stdlib Require Import ZArith List String Ascii Lia Bool.
From stdpp Require Import gmap strings list.

Local Open Scope Z_scope.

(* ===================================================================== *)
(** ** hashlib.sha256 *)
(* ===================================================================== *)

Module Sha256.

Definition wrap32 (z : Z) : Z := z mod 0x100000000.

Definition add32 (a b : Z) : Z := wrap32 (a + b).

Definition rotr (n x : Z) : Z :=
  wrap32 (Z.lor (Z.shiftr x n) (Z.shiftl x (32 - n))).

Definition xor3 (a b c : Z) : Z := Z.lxor (Z.lxor a b) c.

Definition choose (e f g : Z) : Z :=
  Z.lxor (Z.land e f) (Z.land (Z.lxor e 0xFFFFFFFF) g).

Definition majority (a b c : Z) : Z :=
  xor3 (Z.land a b) (Z.land a c) (Z.land b c).

Definition big_sigma0 (x : Z) : Z := xor3 (rotr 2 x) (rotr 13 x) (rotr 22 x).
Definition big_sigma1 (x : Z) : Z := xor3 (rotr 6 x) (rotr 11 x) (rotr 25 x).
Definition small_sigma0 (x : Z) : Z := xor3 (rotr 7 x) (rotr 18 x) (Z.shiftr x 3).
Definition small_sigma1 (x : Z) : Z := xor3 (rotr 17 x) (rotr 19 x) (Z.shiftr x 10).

(** The primes below [bound], by trial division. *)
Definition is_prime (n : Z) : bool :=
  (1 <? n) && forallb (fun d => negb (n mod d =? 0) || (n <=? d))
                (List.map Z.of_nat (seq 2 (Z.to_nat (Z.sqrt n)))).

Definition primes_below (bound : nat) : list Z :=
  List.filter is_prime (List.map Z.of_nat (seq 2 (bound - 2))).

(** The greatest [r] below [2 ^ bits] with [r ^ 3 <= n], bit by bit. *)
Fixpoint cube_root (bits : nat) (n r : Z) : Z :=
  match bits with
  | O => r
  | S b =>
      let c := r + 2 ^ Z.of_nat b in
      cube_root b n (if c * c * c <=? n then c else r)
  end.

(** The first 32 bits of the fractional parts of the cube roots of the
    first 64 primes. *)
Definition round_constants : list Z :=
  Eval vm_compute in
    List.map (fun p => wrap32 (cube_root 36 (p * 2 ^ 96) 0)) (primes_below 312).

(** The first 32 bits of the fractional parts of the square roots of the
    first 8 primes. *)
Definition initial_hash : list Z :=
  Eval vm_compute in
    List.map (fun p => wrap32 (Z.sqrt (p * 2 ^ 64))) (primes_below 20).

(** Big-endian bytes of [z], [n] of them. *)
Fixpoint be_bytes (n : nat) (z : Z) : list Z :=
  match n with
  | O => []
  | S k => Z.shiftr z (8 * Z.of_nat k) mod 256 :: be_bytes k z
  end.

(** The message followed by 0x80, zero bytes up to 56 modulo 64, and the
    bit length on 8 bytes. *)
Definition pad (msg : list Z) : list Z :=
  let len := Z.of_nat (length msg) in
  msg ++ [0x80] ++ repeat 0 (Z.to_nat ((55 - len) mod 64)) ++ be_bytes 8 (8 * len).

Fixpoint words_of_bytes (fuel : nat) (bs : list Z) : list Z :=
  match fuel, bs with
  | S k, b0 :: b1 :: b2 :: b3 :: rest =>
      (((b0 * 256 + b1) * 256 + b2) * 256 + b3) :: words_of_bytes k rest
  | _, _ => []
  end.

Fixpoint blocks_of_words (fuel : nat) (ws : list Z) : list (list Z) :=
  match fuel, ws with
  | _, [] => []
  | O, _ => []
  | S k, _ => take 16 ws :: blocks_of_words k (drop 16 ws)
  end.

(** The message schedule, most recent word first: [recent] holds
    W(t-1), W(t-2), ...; [todo] more words are appended. *)
Fixpoint schedule (todo : nat) (recent : list Z) : list Z :=
  match todo with
  | O => recent
  | S k =>
      let w := add32 (add32 (small_sigma1 (nth 1 recent 0)) (nth 6 recent 0))
                     (add32 (small_sigma0 (nth 14 recent 0)) (nth 15 recent 0)) in
      schedule k (w :: recent)
  end.

Record regs := Regs { ra : Z; rb : Z; rc : Z; rd : Z; re : Z; rf : Z; rg : Z; rh : Z }.

Definition round (r : regs) (kw : Z * Z) : regs :=
  let t1 := add32 (add32 (add32 (rh r) (big_sigma1 (re r)))
                         (add32 (choose (re r) (rf r) (rg r)) (fst kw))) (snd kw) in
  let t2 := add32 (big_sigma0 (ra r)) (majority (ra r) (rb r) (rc r)) in
  Regs (add32 t1 t2) (ra r) (rb r) (rc r) (add32 (rd r) t1) (re r) (rf r) (rg r).

Definition regs_of_list (h : list Z) : regs :=
  Regs (nth 0 h 0) (nth 1 h 0) (nth 2 h 0) (nth 3 h 0)
       (nth 4 h 0) (nth 5 h 0) (nth 6 h 0) (nth 7 h 0).

Definition list_of_regs (r : regs) : list Z :=
  [ra r; rb r; rc r; rd r; re r; rf r; rg r; rh r].

Definition compress (h : list Z) (block : list Z) : list Z :=
  let w := List.rev (schedule 48 (List.rev block)) in
  let r := fold_left round (combine round_constants w) (regs_of_list h) in
  zip_with add32 h (list_of_regs r).

Definition digest_words (msg : list Z) : list Z :=
  let padded := pad msg in
  let ws := words_of_bytes (length padded) padded in
  fold_left compress (blocks_of_words (length ws) ws) initial_hash.

Definition hex_digit (d : Z) : ascii :=
  ascii_of_N (Z.to_N (if d <? 10 then 48 + d else 87 + d)).

Definition hex_byte (b : Z) : string :=
  String (hex_digit (b / 16)) (String (hex_digit (b mod 16)) EmptyString).

Definition hex_of_bytes (bs : list Z) : string :=
  fold_right (fun b acc => hex_byte b +:+ acc) EmptyString bs.

Definition byte_values (s : string) : list Z :=
  List.map (fun c => Z.of_N (N_of_ascii c)) (list_ascii_of_string s).

(** [hashlib.sha256(data).hexdigest()] *)
Definition hexdigest (data : string) : string :=
  hex_of_bytes (flat_map (be_bytes 4) (digest_words (byte_values data))).

End Sha256.

(* ===================================================================== *)
(** ** Python [str] operations used by the program *)
(* ===================================================================== *)

Module Text.

Definition chr (n : Z) : ascii := ascii_of_N (Z.to_N n).
Definition ord (c : ascii) : Z := Z.of_N (N_of_ascii c).

(** [s.encode("utf-8")] for text whose code points are below 256. *)
Fixpoint encode_utf8 (s : string) : string :=
  match s with
  | EmptyString => EmptyString
  | String c rest =>
      if ord c <? 128 then String c (encode_utf8 rest)
      else String (chr (192 + ord c / 64))
             (String (chr (128 + ord c mod 64)) (encode_utf8 rest))
  end.

(** [s.split(sep)] for a one-character separator: never empty. *)
Fixpoint split (sep : ascii) (s : string) : list string :=
  match s with
  | EmptyString => [EmptyString]
  | String c rest =>
      if Ascii.eqb c sep then EmptyString :: split sep rest
      else match split sep rest with
           | [] => [String c EmptyString]
           | w :: ws => String c w :: ws
           end
  end.

(** [l[-k]] for [k >= 1], with [default] where Python raises IndexError. *)
Definition from_end {A} (k : nat) (l : list A) (default : A) : A :=
  nth (k - 1) (List.rev l) default.

(** [s.lstrip(c)] for a one-character set: every leading [c] goes. *)
Fixpoint lstrip (c : ascii) (s : string) : string :=
  match s with
  | EmptyString => EmptyString
  | String a rest => if Ascii.eqb a c then lstrip c rest else s
  end.

(** [s.removeprefix(c)]: at most one leading [c] goes.  The program does
    not call it; it is what "strip a single leading character" means. *)
Definition removeprefix (c : ascii) (s : string) : string :=
  match s with
  | String a rest => if Ascii.eqb a c then rest else s
  | EmptyString => EmptyString
  end.

Fixpoint startswith (p s : string) : bool :=
  match p, s with
  | EmptyString, _ => true
  | String a p', String b s' => Ascii.eqb a b && startswith p' s'
  | String _ _, EmptyString => false
  end.

Definition endswith (suffix s : string) : bool :=
  startswith (String.rev suffix) (String.rev s).

Fixpoint join (sep : string) (l : list string) : string :=
  match l with
  | [] => EmptyString
  | [x] => x
  | x :: rest => x +:+ sep +:+ join sep rest
  end.

Fixpoint digits (fuel : nat) (n : Z) (acc : string) : string :=
  match fuel with
  | O => acc
  | S k =>
      let acc' := String (chr (48 + n mod 10)) acc in
      if n / 10 =? 0 then acc' else digits k (n / 10) acc'
  end.

(** [str(n)] for an integer. *)
Definition decimal (n : Z) : string :=
  if n <? 0 then String "-" (digits (Z.to_nat (Z.log2 (- n)) + 1) (- n) EmptyString)
  else digits (Z.to_nat (Z.log2 n) + 1) n EmptyString.

End Text.

(* ===================================================================== *)
(** ** Plain documents (what [toml] and [json] load) and [json.dumps] *)
(* ===================================================================== *)

Module Json.

(** A [dict] keeps its keys in insertion order, and [json.dumps] writes
    them in that order: an association list with distinct keys. *)
#[local] Set Warnings "-register-all".
Inductive value :=
| VNull
| VBool (b : bool)
| VInt (n : Z)
| VStr (s : string)
| VList (items : list value)
| VDict (entries : list (string * value)).

(** [d.get(k)] *)
Fixpoint assoc_get {A} (k : string) (d : list (string * A)) : option A :=
  match d with
  | [] => None
  | (k', v) :: rest => if String.eqb k k' then Some v else assoc_get k rest
  end.

(** [d[k] = v]: an existing key keeps its place, a new key goes last. *)
Fixpoint assoc_set {A} (k : string) (v : A) (d : list (string * A)) : list (string * A) :=
  match d with
  | [] => [(k, v)]
  | (k', v') :: rest =>
      if String.eqb k k' then (k, v) :: rest else (k', v') :: assoc_set k v rest
  end.

(** One character of a string literal under [ensure_ascii=True]: only the
    printable ASCII characters other than the quote and the backslash are
    written as they are. *)
Definition escape_char (c : ascii) : string :=
  let n := Text.ord c in
  if n =? 34 then "\"%string +:+ String (Text.chr 34) EmptyString
  else if n =? 92 then "\\"%string
  else if n =? 10 then "\n"%string
  else if n =? 13 then "\r"%string
  else if n =? 9 then "\t"%string
  else if n =? 8 then "\b"%string
  else if n =? 12 then "\f"%string
  else if (32 <=? n) && (n <=? 126) then String c EmptyString
  else "\u00"%string +:+ Sha256.hex_byte n.

Fixpoint escape (s : string) : string :=
  match s with
  | EmptyString => EmptyString
  | String c rest => escape_char c +:+ escape rest
  end.

Definition quote (s : string) : string :=
  String (Text.chr 34) (escape s +:+ String (Text.chr 34) EmptyString).

(** [json.dumps(v)] with the default separators [", "] and [": "]. *)
Fixpoint dumps (v : value) : string :=
  match v with
  | VNull => "null"
  | VBool true => "true"
  | VBool false => "false"
  | VInt n => Text.decimal n
  | VStr s => quote s
  | VList items =>
      "[" +:+ Text.join ", " (List.map dumps items) +:+ "]"
  | VDict entries =>
      "{" +:+ Text.join ", "
                (List.map (fun kv => quote (fst kv) +:+ ": " +:+ dumps (snd kv)) entries)
          +:+ "}"
  end.

End Json.

(* ===================================================================== *)
(** ** The world the program runs in *)
(* ===================================================================== *)

(** A regular file with its bytes and permission bits, or a directory. *)
Inductive node :=
| File (data : string) (mode : Z)
| Dir.

(** What [requests.get(url, stream=True)] meets: no connection, or a
    response with a status and a body; [cut = Some k] is a transport error
    after [k] bytes of the body were received. *)
Record response := Response {
  status_code : Z;
  body : string;
  cut : option nat
}.

Inductive reply :=
| Unreachable
| Responds (r : response).

Record release_asset := ReleaseAsset {
  name : string;
  browser_download_url : string
}.

(** A release object of the hosting API ([tag_name] may be missing: the
    program reads it with [.get]). *)
Record release := Release {
  tag_name : option string;
  prerelease : bool;
  assets : list release_asset;
  tarball_url : string;
  zipball_url : string
}.

(** The reply to [GET /repos/{repo}/releases], its JSON body decoded. *)
Inductive api_reply :=
| ApiUnreachable
| ApiResponse (status : Z) (releases : list release).

(** A document of the working directory ([mazette.toml], [pyproject.toml],
    [mazette.lock]), held by what its parser returns. *)
Inductive document :=
| Absent
| Unparsable
| Holds (v : Json.value).

Inductive error :=
(* AssetException, by message *)
| MalformedDownloadUrl (url : string)
| HashMismatch (url computed expected : string)
| UnexpectedApiStatus (repo : string) (status : Z)
| NoReleasesMatch (semver_range repo : string)
| AssetNotFound (asset : string)
| ConfigNotLoaded (file : string)
| MissingToolSection
| MissingConfig
| LockNotInSync
| LockNotLoaded (cause : error)
| GlobsDidNotMatch
| UnsupportedArchiveName (asset : string)
| UnsupportedArchiveType (filetype : option string)
| ExtractionFailed (archive : string) (cause : error)
| NoPlatformEntry (platform : string)
(* other exceptions *)
| HTTPError (status : Z)
| ConnectionError
| TransportError
| OSError (path : string)
| KeyError (key : string)
| TypeError
| ValueError
| AttributeError
| IndexError
| UnicodeDecodeError
(* tarfile.ReadError, tarfile.FilterError, zipfile.BadZipFile *)
| ReadError
| FilterError
| BadZipFile.

Inductive event :=
| Requested (url : string)
| Hashed (path : string).

Record world := World {
  fs : gmap string node;
  remote : string -> reply;
  github : string -> api_reply;
  config_file : document;
  pyproject_file : document;
  lock_file : document;
  log : list event
}.

Definition set_fs (f : gmap string node) (w : world) : world :=
  World f (remote w) (github w) (config_file w) (pyproject_file w) (lock_file w) (log w).

Definition set_lock_file (d : document) (w : world) : world :=
  World (fs w) (remote w) (github w) (config_file w) (pyproject_file w) d (log w).

Definition add_event (e : event) (w : world) : world :=
  World (fs w) (remote w) (github w) (config_file w) (pyproject_file w) (lock_file w)
        (log w ++ [e]).

Inductive outcome (A : Type) :=
| Return (a : A)
| Raise (e : error).
Arguments Return {A} a.
Arguments Raise {A} e.

Definition M (A : Type) : Type := world -> outcome A * world.

Definition ret {A} (a : A) : M A := fun w => (Return a, w).
Definition raise {A} (e : error) : M A := fun w => (Raise e, w).

Definition bind {A B} (m : M A) (k : A -> M B) : M B :=
  fun w =>
    match m w with
    | (Return a, w') => k a w'
    | (Raise e, w') => (Raise e, w')
    end.

(** A computation that does not touch the world. *)
Definition lift {A} (o : outcome A) : M A := fun w => (o, w).

(** [try: m  except Exception as e: raise h(e)] *)
Definition rethrow {A} (h : error -> error) (m : M A) : M A :=
  fun w =>
    match m w with
    | (Return a, w') => (Return a, w')
    | (Raise e, w') => (Raise (h e), w')
    end.

Notation "'let*' x ':=' m 'in' k" := (bind m (fun x => k))
  (at level 10, x name, m at level 100, k at level 200).
Notation "m ';;' k" := (bind m (fun _ => k))
  (at level 100, k at level 200, right associativity).

(** *** Files *)

(** Permission bits of a file created by [open(path, "w")] under the usual
    umask 022: 0o644. *)
Definition default_mode : Z := 420.

Definition path_exists (p : string) : M bool :=
  fun w => (Return (bool_decide (is_Some (fs w !! p))), w).

Definition path_is_dir (p : string) : M bool :=
  fun w => (Return (match fs w !! p with Some Dir => true | _ => false end), w).

(** [with open(p, "w") as f: f.write(data)] *)
Definition write_file (p data : string) : M unit :=
  fun w =>
    match fs w !! p with
    | Some Dir => (Raise (OSError p), w)
    | Some (File _ mode) => (Return tt, set_fs (<[p := File data mode]> (fs w)) w)
    | None => (Return tt, set_fs (<[p := File data default_mode]> (fs w)) w)
    end.

(** [with open(p, "rb") as f: f.read()] *)
Definition read_file (p : string) : M string :=
  fun w =>
    match fs w !! p with
    | Some (File data _) => (Return data, w)
    | _ => (Raise (OSError p), w)
    end.

(** A continuation byte of UTF-8, 0x80..0xBF. *)
Definition continuation (c : ascii) : bool :=
  (128 <=? Text.ord c) && (Text.ord c <=? 191).

(** The second byte a lead byte of a three- or four-byte sequence may
    have (no overlong forms, no surrogates, nothing above U+10FFFF). *)
Definition second_byte (lead : Z) (c : ascii) : bool :=
  let b := Text.ord c in
  if lead =? 224 then (160 <=? b) && (b <=? 191)
  else if lead =? 237 then (128 <=? b) && (b <=? 159)
  else if lead =? 240 then (144 <=? b) && (b <=? 191)
  else if lead =? 244 then (128 <=? b) && (b <=? 143)
  else continuation c.

(** [data.decode("utf-8")], strict: [None] where Python raises
    UnicodeDecodeError.  The text of this model has code points below 256
    (see [Text.encode_utf8]): a one-byte sequence and a two-byte sequence
    behind 0xC2 or 0xC3 give their code point; a longer well-formed
    sequence, whose code point this text cannot hold, is kept as its
    bytes. *)
Fixpoint decode_utf8 (data : string) : option string :=
  match data with
  | EmptyString => Some EmptyString
  | String c rest =>
      let b := Text.ord c in
      if b <? 128 then String c <$> decode_utf8 rest
      else if (194 <=? b) && (b <=? 223) then
        match rest with
        | String c2 rest2 =>
            if continuation c2 then
              if b <=? 195
              then String (Text.chr ((b - 192) * 64 + (Text.ord c2 - 128)))
                     <$> decode_utf8 rest2
              else (fun t => String c (String c2 t)) <$> decode_utf8 rest2
            else None
        | EmptyString => None
        end
      else if (224 <=? b) && (b <=? 239) then
        match rest with
        | String c2 (String c3 rest3) =>
            if second_byte b c2 && continuation c3
            then (fun t => String c (String c2 (String c3 t))) <$> decode_utf8 rest3
            else None
        | _ => None
        end
      else if (240 <=? b) && (b <=? 244) then
        match rest with
        | String c2 (String c3 (String c4 rest4)) =>
            if second_byte b c2 && continuation c3 && continuation c4
            then (fun t => String c (String c2 (String c3 (String c4 t))))
                   <$> decode_utf8 rest4
            else None
        | _ => None
        end
      else None
  end.

(** The newline translation of a text-mode read ([newline=None]): a
    carriage return with or without the line feed behind it comes out as
    one line feed. *)
Fixpoint universal_newlines (text : string) : string :=
  match text with
  | EmptyString => EmptyString
  | String "013" (String "010" rest) => String "010" (universal_newlines rest)
  | String "013" rest => String "010" (universal_newlines rest)
  | String c rest => String c (universal_newlines rest)
  end.

(** [with open(p, "r") as f: f.read()], the locale's encoding being
    UTF-8: the bytes are decoded, then the newlines translated. *)
Definition read_text (p : string) : M string :=
  fun w =>
    match fs w !! p with
    | Some (File data _) =>
        match decode_utf8 data with
        | Some text => (Return (universal_newlines text), w)
        | None => (Raise UnicodeDecodeError, w)
        end
    | _ => (Raise (OSError p), w)
    end.

(** [p.unlink(missing_ok=True)] *)
Definition unlink_missing_ok (p : string) : M unit :=
  fun w =>
    match fs w !! p with
    | Some Dir => (Raise (OSError p), w)
    | Some (File _ _) => (Return tt, set_fs (delete p (fs w)) w)
    | None => (Return tt, w)
    end.

(** The path and the paths above it, outermost first: ["a"; "a/b"] for
    ["a/b"], and [""; "/a"; "/a/b"] for ["/a/b"] (the empty one is the
    root, which always exists). *)
Fixpoint path_chain (above : option string) (segments : list string) : list string :=
  match segments with
  | [] => []
  | s :: rest =>
      let p := match above with
               | None => s
               | Some a => a +:+ "/" +:+ s
               end in
      p :: path_chain (Some p) rest
  end.

Definition mkdir_one (p : string) : M unit :=
  fun w =>
    if String.eqb p "" then (Return tt, w)
    else match fs w !! p with
         | Some Dir => (Return tt, w)
         | Some (File _ _) => (Raise (OSError p), w)
         | None => (Return tt, set_fs (<[p := Dir]> (fs w)) w)
         end.

Fixpoint mkdir_each (ps : list string) : M unit :=
  match ps with
  | [] => ret tt
  | p :: rest => mkdir_one p ;; mkdir_each rest
  end.

(** [Path(p).mkdir(parents=True, exist_ok=True)] *)
Definition mkdir_parents (p : string) : M unit :=
  mkdir_each (path_chain None (Text.split "/" p)).

(** *** Network *)

(** [requests.get(url, stream=True)] *)
Definition requests_get (url : string) : M response :=
  fun w =>
    match remote w url with
    | Unreachable => (Raise ConnectionError, add_event (Requested url) w)
    | Responds r => (Return r, add_event (Requested url) w)
    end.

(** [response.raise_for_status()]: 4xx and 5xx raise. *)
Definition raise_for_status (r : response) : M unit :=
  if (400 <=? status_code r) && (status_code r <? 600)
  then raise (HTTPError (status_code r)) else ret tt.

(** [with open(p, "wb") as f: shutil.copyfileobj(response.raw, f)]: the
    file is opened (created or truncated) first, what arrives is written
    to it, and a transport error leaves what had arrived. *)
Definition copy_body_to (p : string) (r : response) : M unit :=
  match cut r with
  | None => write_file p (body r)
  | Some k => write_file p (String.substring 0 k (body r)) ;; raise TransportError
  end.

(* ===================================================================== *)
(** ** Content cache *)
(* ===================================================================== *)

(** [user_cache_dir("mazette")] on Linux for a user whose home is
    [/home/user]. *)
Definition CACHE_ROOT : string := "/home/user/.cache/mazette".
Definition CONFIG_FILE : string := "mazette.toml".
Definition PYPROJECT_FILE : string := "pyproject.toml".
Definition LOCK_FILE : string := "mazette.lock".
Definition GITHUB_API_URL : string := "https://api.github.com".

(** The hash object: what [update] has been fed so far. *)
Definition hash_update (h chunk : string) : string := h +:+ chunk.

(** [stream.read(n)]: up to [n] bytes, and what is left of the stream. *)
Fixpoint stream_read (n : N) (stream : string) : string * string :=
  match stream with
  | EmptyString => (EmptyString, EmptyString)
  | String c rest =>
      if N.eqb n 0 then (EmptyString, stream)
      else let '(chunk, remaining) := stream_read (N.pred n) rest in
           (String c chunk, remaining)
  end.

(** [for chunk in iter(lambda: stream.read(size), b""): h.update(chunk)] *)
Fixpoint read_chunks (fuel : nat) (size : N) (stream h : string) : string :=
  match fuel with
  | O => h
  | S k =>
      let '(chunk, remaining) := stream_read size stream in
      if String.eqb chunk "" then h
      else read_chunks k size remaining (hash_update h chunk)
  end.

(** Reads of [1024**3] bytes; one more read than there are bytes ends the
    loop. *)
Definition calc_checksum (stream : string) : string :=
  Sha256.hexdigest
    (read_chunks (S (String.length stream)) (1024 ^ 3)%N stream EmptyString).

(** [with open(path, "rb") as f: calc_checksum(f)] *)
Definition checksum_of_file (path : string) : M string :=
  let* data := read_file path in
  fun w => (Return (calc_checksum data), add_event (Hashed path) w).

(** The first half of [cache_file_path]: the name of the cache file, or
    the exception for a URL with fewer than three segments. *)
Definition cache_file_name (url : string) : outcome string :=
  let url_hash := Sha256.hexdigest (Text.encode_utf8 url) in
  let parsed := Text.split "/" url in
  if (length parsed <? 3)%nat then Raise (MalformedDownloadUrl url)
  else
    let asset_name := Text.from_end 1 parsed EmptyString in
    let asset_type := Text.from_end 2 parsed EmptyString in
    let asset_name :=
      if String.eqb asset_type "zipball" || String.eqb asset_type "tarball"
      then Text.from_end 3 parsed EmptyString +:+ "-" +:+ asset_type
      else asset_name in
    Return (url_hash +:+ "-" +:+ asset_name).

(** The second half creates the cache directory and joins the two. *)
Definition cache_file_path (url : string) : M string :=
  let* file_name := lift (cache_file_name url) in
  mkdir_parents CACHE_ROOT ;;
  ret (CACHE_ROOT +:+ "/" +:+ file_name).

Definition checksum_file_path (url : string) : M string :=
  let* path := cache_file_path url in
  ret (path +:+ ".sha256").

Definition store_checksum_in_cache (url checksum : string) : M unit :=
  let* path := checksum_file_path url in
  write_file path checksum.

Definition get_cached_url (url : string) : M (option string) :=
  let* file_path := cache_file_path url in
  let* present := path_exists file_path in
  ret (if present then Some file_path else None).

Definition download_to_cache (url : string) : M string :=
  let* cached := get_cached_url url in
  match cached with
  | Some path => ret path
  | None =>
      let* response := requests_get url in
      raise_for_status response ;;
      let* cached := cache_file_path url in
      copy_body_to cached response ;;
      let* checksum := checksum_of_file cached in
      store_checksum_in_cache url checksum ;;
      ret cached
  end.

Definition hash_asset (url : string) : M string :=
  let* checksum_file := checksum_file_path url in
  let* present := path_exists checksum_file in
  if present then read_text checksum_file
  else
    let* cached_file := download_to_cache url in
    let* checksum := checksum_of_file cached_file in
    store_checksum_in_cache url checksum ;;
    ret checksum.

Definition download_to_cache_and_verify (url expected_checksum : string) : M string :=
  let* cached_file := download_to_cache url in
  let* checksum_file := checksum_file_path url in
  let* computed_checksum := checksum_of_file cached_file in
  if negb (String.eqb computed_checksum expected_checksum) then
    unlink_missing_ok cached_file ;;
    unlink_missing_ok checksum_file ;;
    raise (HashMismatch url computed_checksum expected_checksum)
  else ret cached_file.

(* ===================================================================== *)
(** ** Lock consistency gate *)
(* ===================================================================== *)

(** [v[k]] on a loaded document. *)
Definition subscript (v : Json.value) (k : string) : outcome Json.value :=
  match v with
  | Json.VDict d =>
      match Json.assoc_get k d with
      | Some x => Return x
      | None => Raise (KeyError k)
      end
  | _ => Raise TypeError
  end.

Definition read_config : M Json.value :=
  fun w =>
    match config_file w with
    | Holds config => (Return config, w)
    | Unparsable => (Raise (ConfigNotLoaded CONFIG_FILE), w)
    | Absent =>
        match pyproject_file w with
        | Holds config =>
            match subscript config "tool" with
            | Return tool =>
                match subscript tool "mazette" with
                | Return section => (Return section, w)
                | Raise (KeyError _) => (Raise MissingToolSection, w)
                | Raise e => (Raise e, w)
                end
            | Raise (KeyError _) => (Raise MissingToolSection, w)
            | Raise e => (Raise e, w)
            end
        | Unparsable => (Raise (ConfigNotLoaded PYPROJECT_FILE), w)
        | Absent => (Raise MissingConfig, w)
        end
    end.

(** [hashlib.sha256(json.dumps(config).encode()).hexdigest()], the
    expression both [write_lock] and [check_lock_stale] evaluate. *)
Definition config_hash (config : Json.value) : string :=
  Sha256.hexdigest (Text.encode_utf8 (Json.dumps config)).

(** [lock_data["config_checksum"] = config_hash] on the caller's object. *)
Definition stamp (lock_data : Json.value) (hash : string) : outcome Json.value :=
  match lock_data with
  | Json.VDict d => Return (Json.VDict (Json.assoc_set "config_checksum" (Json.VStr hash) d))
  | _ => Raise TypeError
  end.

Definition write_lock (lock_data : Json.value) : M unit :=
  let* config := read_config in
  let* stamped := lift (stamp lock_data (config_hash config)) in
  fun w => (Return tt, set_lock_file (Holds stamped) w).

(** [a != b] between a [str] and a loaded value. *)
Definition differs_from (a : string) (b : Json.value) : bool :=
  match b with
  | Json.VStr s => negb (String.eqb a s)
  | _ => true
  end.

Definition check_lock_stale (lock : Json.value) : M unit :=
  let* config := read_config in
  let* stored := lift (subscript lock "config_checksum") in
  if differs_from (config_hash config) stored then raise LockNotInSync
  else ret tt.

(** [with open(LOCK_FILE) as fp: json.load(fp)] *)
Definition json_load_lock : M Json.value :=
  fun w =>
    match lock_file w with
    | Holds lock => (Return lock, w)
    | Unparsable => (Raise ValueError, w)
    | Absent => (Raise (OSError LOCK_FILE), w)
    end.

Definition load_lock (check : bool) : M Json.value :=
  rethrow LockNotLoaded
    (let* lock := json_load_lock in
     (if check then check_lock_stale lock else ret tt) ;;
     ret lock).

(* ===================================================================== *)
(** ** Version resolver *)
(* ===================================================================== *)

Section Resolver.

(** The [semver] package: [VersionInfo.parse] ([None] where it raises
    ValueError), [version.match(expr)] ([None] where the expression is
    not one it accepts and it raises ValueError), and [version.compare]
    behind the rich comparisons [max] uses. *)
Variable VersionInfo : Type.
Variable parse : string -> option VersionInfo.
Variable vmatch : VersionInfo -> string -> option bool.
Variable compare : VersionInfo -> VersionInfo -> comparison.

(** The loop of [get_latest_release] over the decoded releases. *)
Fixpoint collect_matching (releases : list release) (semver_range : string)
  : outcome (list (release * VersionInfo)) :=
  match releases with
  | [] => Return []
  | rel :: rest =>
      let tag := default EmptyString (tag_name rel) in
      let version_str := Text.lstrip "v" tag in
      match parse version_str with
      | None => collect_matching rest semver_range
      | Some version =>
          if prerelease rel then collect_matching rest semver_range
          else match vmatch version semver_range with
               | None => Raise ValueError
               | Some false => collect_matching rest semver_range
               | Some true =>
                   match collect_matching rest semver_range with
                   | Return matching => Return ((rel, version) :: matching)
                   | Raise e => Raise e
                   end
               end
      end
  end.

(** [max(matching, key=lambda x: x[1])]: the first of the greatest. *)
Fixpoint max_from (best : release * VersionInfo) (rest : list (release * VersionInfo))
  : release * VersionInfo :=
  match rest with
  | [] => best
  | x :: rest' =>
      match compare (snd x) (snd best) with
      | Gt => max_from x rest'
      | _ => max_from best rest'
      end
  end.

Definition releases_url (repo : string) : string :=
  GITHUB_API_URL +:+ "/repos/" +:+ repo +:+ "/releases".

(** [requests.get(url)] on the releases endpoint, then
    [raise_for_status], the status test and [response.json()]. *)
Definition fetch_releases (repo : string) : M (list release) :=
  fun w =>
    let w' := add_event (Requested (releases_url repo)) w in
    match github w repo with
    | ApiUnreachable => (Raise ConnectionError, w')
    | ApiResponse status releases =>
        if (400 <=? status) && (status <? 600) then (Raise (HTTPError status), w')
        else if negb (status =? 200) then (Raise (UnexpectedApiStatus repo status), w')
        else (Return releases, w')
    end.

Definition get_latest_release (repo semver_range : string) : M release :=
  let* releases := fetch_releases repo in
  let* matching := lift (collect_matching releases semver_range) in
  match matching with
  | [] => raise (NoReleasesMatch semver_range repo)
  | first :: rest => ret (fst (max_from first rest))
  end.

End Resolver.

Fixpoint find_asset (expected_name : string) (l : list release_asset) : option string :=
  match l with
  | [] => None
  | a :: rest =>
      if String.eqb (name a) expected_name then Some (browser_download_url a)
      else find_asset expected_name rest
  end.

Section Formatter.

(** [pattern.format(version=version)]: the formatted text, or the
    exception [str.format] raises (ValueError for a malformed pattern,
    KeyError for a field of another name, IndexError for a positional
    field, and so on). *)
Variable format : string -> string -> outcome string.

Definition get_download_url (rel : release) (pattern : string) : outcome string :=
  if String.eqb pattern "!tarball" then Return (tarball_url rel)
  else if String.eqb pattern "!zipball" then Return (zipball_url rel)
  else
    match tag_name rel with
    | None => Raise AttributeError
    | Some tag =>
        let version := Text.lstrip "v" tag in
        match format pattern version with
        | Raise e => Raise e
        | Return expected_name =>
            match find_asset expected_name (assets rel) with
            | Some url => Return url
            | None => Raise (AssetNotFound pattern)
            end
        end
    end.

End Formatter.

(* ===================================================================== *)
(** ** Archive member selection *)
(* ===================================================================== *)

Section Extractor.

(** [fnmatch.fnmatch(name, pattern)] *)
Variable fnmatch : string -> string -> bool.

(** [fnmatch.filter(files, glob)] over a set: the matching names, in the
    order the set hands them out. *)
Definition fnmatch_filter (files : gset string) (glob : string) : list string :=
  filter (fun n => fnmatch n glob = true) (elements files).

(** The generator [filter_files(files, globs)] between two [next]
    calls: the local set [files], the flag [matched], what is left of the
    list the inner [for] walks, the globs the outer [for] has not
    reached, and whether the body has run to its end. *)
Record filter_gen := FilterGen {
  gen_files : gset string;
  gen_matched : bool;
  gen_pending : list string;
  gen_globs : list string;
  gen_done : bool
}.

Inductive resumed :=
| Yield (m : string)
| StopIteration
| Throw (e : error).

(** One turn of the inner loop body: [matched = True; files.remove(m);
    yield m]. *)
Definition yield_member (files : gset string) (m : string)
    (pending globs : list string) : resumed * filter_gen :=
  if decide (m ∈ files)
  then (Yield m, FilterGen (files ∖ {[m]}) true pending globs false)
  else (Throw (KeyError m), FilterGen files true pending globs true).

(** The outer loop from a point where the inner list is used up. *)
Fixpoint next_glob (files : gset string) (matched : bool) (globs : list string)
  : resumed * filter_gen :=
  match globs with
  | [] =>
      (if matched then StopIteration else Throw GlobsDidNotMatch,
       FilterGen files matched [] [] true)
  | glob :: rest =>
      match fnmatch_filter files glob with
      | [] => next_glob files matched rest
      | m :: pending => yield_member files m pending rest
      end
  end.

(** [next(gen)] *)
Definition resume (g : filter_gen) : resumed * filter_gen :=
  if gen_done g then (StopIteration, g)
  else match gen_pending g with
       | m :: pending => yield_member (gen_files g) m pending (gen_globs g)
       | [] => next_glob (gen_files g) (gen_matched g) (gen_globs g)
       end.

(** [filter_files(files, globs)]: the generator before its first
    [next]; [set(files)] is the first statement of its body. *)
Definition filter_files (files globs : list string) : filter_gen :=
  FilterGen (list_to_set files) false [] globs false.

(** How a consumer's [for] over the generator ends. *)
Inductive finish :=
| Exhausted
| Failed (e : error)
| Unfinished.

(** A consumer that takes up to [fuel] members. *)
Fixpoint consume (fuel : nat) (g : filter_gen) : list string * finish :=
  match fuel with
  | O => ([], Unfinished)
  | S k =>
      match resume g with
      | (Yield m, g') => let '(ms, f) := consume k g' in (m :: ms, f)
      | (StopIteration, _) => ([], Exhausted)
      | (Throw e, _) => ([], Failed e)
      end
  end.

End Extractor.

(* ===================================================================== *)
(** ** Installer *)
(* ===================================================================== *)

(** Extract options of a lock entry. *)
Record ExtractOpts := MkExtractOpts {
  globs : list string;
  filetype : option string;
  flatten : bool
}.

(** A lock entry; [extract = None] is the [False] of the lock file. *)
Record Asset := MkAsset {
  repo : string;
  download_url : string;
  version : string;
  destination : string;
  checksum : string;
  executable : bool;
  extract : option ExtractOpts
}.

(** A regular file inside an archive, as the archive library presents
    it: its name, its bytes, its permission bits, and in [member_target]
    the library's handling of the name, which is the path where the
    member is written when the archive is extracted into a directory
    ([dest/name] for a plain relative name; [zipfile] drops the empty,
    [.] and [..] components of other names), or [None] where the library
    refuses the member (the ["data"] filter of [tarfile] refuses a name
    that leaves the directory with a FilterError, [zipfile] a name with
    nothing left with a ValueError). *)
Record member := Member {
  member_name : string;
  member_data : string;
  member_mode : Z;
  member_target : string -> option string
}.

(** 0o111 *)
Definition exec_bits : Z := 73.

Definition under (dir path : string) : bool :=
  Text.startswith (dir +:+ "/") path.

(** [path.chmod(path.stat().st_mode | 0o111)] *)
Definition chmod_add_exec (p : string) : M unit :=
  fun w =>
    match fs w !! p with
    | Some (File data mode) =>
        (Return tt, set_fs (<[p := File data (Z.lor mode exec_bits)]> (fs w)) w)
    | Some Dir => (Return tt, w)
    | None => (Raise (OSError p), w)
    end.

(** The files [path.walk()] lists below a directory, whatever the depth. *)
Definition files_under (dir : string) (f : gmap string node) : list string :=
  omap (fun kv => match kv with
                  | (p, File _ _) => if under dir p then Some p else None
                  | (_, Dir) => None
                  end) (map_to_list f).

Fixpoint for_each {A} (body : A -> M unit) (xs : list A) : M unit :=
  match xs with
  | [] => ret tt
  | x :: rest => body x ;; for_each body rest
  end.

Definition chmod_exec (path : string) : M unit :=
  let* is_dir := path_is_dir path in
  if is_dir then
    fun w => for_each chmod_add_exec (files_under path (fs w)) w
  else chmod_add_exec path.

(** [shutil.rmtree(path)] *)
Definition rmtree (path : string) : M unit :=
  fun w =>
    (Return tt,
     set_fs (filter (fun kv => kv.1 ≠ path ∧ under path kv.1 = false) (fs w)) w).

(** [shutil.copy2(src, dst)] onto a path that is not a directory: the
    bytes and the permission bits. *)
Definition copy2 (src dst : string) : M unit :=
  fun w =>
    match fs w !! src, fs w !! dst with
    | Some (File data mode), Some Dir => (Raise (OSError dst), w)
    | Some (File data mode), _ =>
        (Return tt, set_fs (<[dst := File data mode]> (fs w)) w)
    | _, _ => (Raise (OSError src), w)
    end.

(** The directories above [path] ([path.parent.mkdir(parents=True,
    exist_ok=True)]). *)
Definition mkdir_parent (path : string) : M unit :=
  mkdir_each (removelast (path_chain None (Text.split "/" path))).

Definition basename (path : string) : string :=
  Text.from_end 1 (Text.split "/" path) EmptyString.

(** [shutil.move(src, dst)] of a file: into [dst] when it is a directory
    (an error if the name is taken there), else onto [dst]. *)
Definition move_file (src dst : string) : M unit :=
  fun w =>
    match fs w !! src with
    | Some (File data mode) =>
        match fs w !! dst with
        | Some Dir =>
            let inside := dst +:+ "/" +:+ basename src in
            if bool_decide (is_Some (fs w !! inside)) then (Raise (OSError inside), w)
            else (Return tt, set_fs (<[inside := File data mode]> (delete src (fs w))) w)
        | _ => (Return tt, set_fs (<[dst := File data mode]> (delete src (fs w))) w)
        end
    | _ => (Raise (OSError src), w)
    end.

Definition has_entries (dir : string) (f : gmap string node) : bool :=
  bool_decide (Exists (fun kv => under dir kv.1 = true) (map_to_list f)).

(** One bottom-up pass of [rmdir] over the directories below [root]: the
    empty ones go, the others stay ([OSError] is swallowed). *)
Definition survives_rmdir (root : string) (f : gmap string node)
    (kv : string * node) : bool :=
  match kv.2 with
  | Dir => negb (under root kv.1) || has_entries kv.1 f
  | File _ _ => true
  end.

Definition rmdir_empty (root : string) (f : gmap string node) : gmap string node :=
  filter (fun kv => survives_rmdir root f kv = true) f.

Fixpoint rmdir_bottom_up (passes : nat) (root : string) (f : gmap string node)
  : gmap string node :=
  match passes with
  | O => f
  | S k => rmdir_bottom_up k root (rmdir_empty root f)
  end.

(** The files of the subdirectories go to the destination root, in the
    order the walk meets them (here the order of the map), then the
    directories that are left empty are removed. *)
Definition flatten_extracted_files (dest : string) : M unit :=
  (fun w =>
     for_each (fun p => move_file p (dest +:+ "/" +:+ basename p))
       (List.filter (fun p => negb (String.eqb p (dest +:+ "/" +:+ basename p)))
          (files_under dest (fs w))) w) ;;
  fun w => (Return tt, set_fs (rmdir_bottom_up (size (fs w)) dest (fs w)) w).

Section Installer.

Variable fnmatch : string -> string -> bool.

(** [tarfile.open(path, mode)] and [zipfile.ZipFile(path)] on the bytes
    of a file: the members, or [None] where the bytes are no such
    archive. *)
Variable tar_members : string -> string -> option (list member).
Variable zip_members : string -> option (list member).

(** [tar.getmember(name)]: the last member of that name. *)
Definition getmember (n : string) (ms : list member) : option member :=
  List.find (fun m => String.eqb (member_name m) n) (List.rev ms).

(** The permission bits the ["data"] filter of [tarfile] gives a regular
    file: no high bits and no group or other write bit, no execute bit
    unless the owner has it, owner read and write. *)
Definition data_filter_mode (mode : Z) : Z :=
  let m := Z.land mode 493 in
  let m := if Z.land m 64 =? 0 then Z.land m 420 else m in
  Z.lor m 384.

(** What [tarfile] does with a regular member at its path: the file is
    written, then [chmod] gives it the bits the ["data"] filter left. *)
Definition put_tar_member (target : string) (m : member) : M unit :=
  fun w =>
    match fs w !! target with
    | Some Dir => (Raise (OSError target), w)
    | _ => (Return tt,
            set_fs (<[target := File (member_data m)
                                  (data_filter_mode (member_mode m))]> (fs w)) w)
    end.

(** What [zipfile] does: [open(targetpath, "wb")] and a copy of the
    bytes, so a file that is there keeps its bits and a new one gets the
    default ones. *)
Definition put_zip_member (target : string) (m : member) : M unit :=
  write_file target (member_data m).

(** One member of [extractall]: looked up by name, its name handled by
    the library, the directories above its path made, the file written. *)
Definition write_member (dest : string) (refusal : error)
    (put : string -> member -> M unit) (ms : list member) (n : string) : M unit :=
  match getmember n ms with
  | None => raise (KeyError n)
  | Some m =>
      match member_target m dest with
      | None => raise refusal
      | Some target => mkdir_parent target ;; put target m
      end
  end.

(** [extractall(path, members=gen)]: the generator is resumed once per
    extracted member. *)
Fixpoint extractall (fuel : nat) (write : string -> M unit) (g : filter_gen) : M unit :=
  match fuel with
  | O => ret tt
  | S k =>
      match resume fnmatch g with
      | (Yield m, g') => write m ;; extractall k write g'
      | (StopIteration, _) => ret tt
      | (Throw e, _) => raise e
      end
  end.

Definition extract_asset (archive_path dest : string) (opts : ExtractOpts) : M unit :=
  rethrow (ExtractionFailed archive_path)
    (let is_tgz := bool_decide (filetype opts = Some "tar.gz"%string) in
     let is_tar := bool_decide (filetype opts = Some "tar"%string) in
     if is_tgz || is_tar then
       let* data := read_file archive_path in
       match tar_members (if is_tgz then "r:gz" else "r") data with
       | None => raise ReadError
       | Some ms =>
           extractall (S (length ms)) (write_member dest FilterError put_tar_member ms)
             (filter_files (List.map member_name ms) (globs opts))
       end
     else if bool_decide (filetype opts = Some "zip"%string) then
       let* data := read_file archive_path in
       match zip_members data with
       | None => raise BadZipFile
       | Some ms =>
           extractall (S (length ms)) (write_member dest ValueError put_zip_member ms)
             (filter_files (List.map member_name ms) (globs opts))
       end
     else raise (UnsupportedArchiveType (filetype opts))) ;;
  if flatten opts then flatten_extracted_files dest else ret tt.

Definition install_asset (asset_name platform : string)
    (asset_dict : list (string * Asset)) : M unit :=
  let entry :=
    match Json.assoc_get platform asset_dict with
    | Some a => Some a
    | None => Json.assoc_get "all" asset_dict
    end in
  match entry with
  | None => raise (NoPlatformEntry platform)
  | Some asset =>
      let* cached_file := download_to_cache_and_verify (download_url asset) (checksum asset) in
      let* present := path_exists (destination asset) in
      (if present then
         let* is_dir := path_is_dir (destination asset) in
         if is_dir then rmtree (destination asset)
         else unlink_missing_ok (destination asset)
       else ret tt) ;;
      match extract asset with
      | Some opts =>
          mkdir_parents (destination asset) ;;
          extract_asset cached_file (destination asset) opts
      | None =>
          mkdir_parent (destination asset) ;;
          copy2 cached_file (destination asset) ;;
          if executable asset then chmod_exec (destination asset) else ret tt
      end
  end.

End Installer.

(* ===================================================================== *)
(** ** Instances of the library interfaces, to run the program *)
(* ===================================================================== *)

(** Versions of the form MAJOR.MINOR.PATCH, ordered component by
    component, with the comparison operators [version.match] reads. *)
Module CoreSemver.

Definition VersionInfo : Type := (N * N * N)%type.

Fixpoint numeral (s : string) (acc : N) : option N :=
  match s with
  | EmptyString => Some acc
  | String c rest =>
      let d := N_of_ascii c in
      if ((48 <=? d) && (d <=? 57))%N then numeral rest (10 * acc + (d - 48))%N
      else None
  end.

(** A numeric identifier: digits, no leading zero unless it is ["0"]. *)
Definition numeric (s : string) : option N :=
  match s with
  | EmptyString => None
  | String "0" (String _ _) => None
  | _ => numeral s 0%N
  end.

Definition parse (s : string) : option VersionInfo :=
  match Text.split "." s with
  | [a; b; c] =>
      match numeric a, numeric b, numeric c with
      | Some x, Some y, Some z => Some (x, y, z)
      | _, _, _ => None
      end
  | _ => None
  end.

Definition compare (v w : VersionInfo) : comparison :=
  let '(a, b, c) := v in
  let '(x, y, z) := w in
  match N.compare a x with
  | Eq => match N.compare b y with
          | Eq => N.compare c z
          | r => r
          end
  | r => r
  end.

Definition is_digit (c : ascii) : bool :=
  ((48 <=? N_of_ascii c) && (N_of_ascii c <=? 57))%N.

Definition vmatch (v : VersionInfo) (expr : string) : option bool :=
  let against (allowed : comparison -> bool) (other : string) :=
    match parse other with
    | Some w => Some (allowed (compare v w))
    | None => None
    end in
  match expr with
  | String ">" (String "=" rest) => against (fun c => negb (bool_decide (c = Lt))) rest
  | String "<" (String "=" rest) => against (fun c => negb (bool_decide (c = Gt))) rest
  | String "=" (String "=" rest) => against (fun c => bool_decide (c = Eq)) rest
  | String "!" (String "=" rest) => against (fun c => negb (bool_decide (c = Eq))) rest
  | String ">" rest => against (fun c => bool_decide (c = Gt)) rest
  | String "<" rest => against (fun c => bool_decide (c = Lt)) rest
  | String c _ => if is_digit c then against (fun c => bool_decide (c = Eq)) expr else None
  | EmptyString => None
  end.

End CoreSemver.

(** Shell patterns with [*] and [?] only. *)
Fixpoint wildcard_match (pattern : string) : string -> bool :=
  match pattern with
  | EmptyString => fun n => String.eqb n ""
  | String "*" rest =>
      fix star (n : string) : bool :=
        wildcard_match rest n ||
        match n with
        | EmptyString => false
        | String _ n' => star n'
        end
  | String "?" rest =>
      fun n => match n with
               | EmptyString => false
               | String _ n' => wildcard_match rest n'
               end
  | String c rest =>
      fun n => match n with
               | EmptyString => false
               | String d n' => Ascii.eqb c d && wildcard_match rest n'
               end
  end.

Definition simple_fnmatch (n pattern : string) : bool := wildcard_match pattern n.

(** A replacement field up to its closing brace, and what follows. *)
Fixpoint field_end (s : string) : option (string * string) :=
  match s with
  | EmptyString => None
  | String "}" rest => Some (EmptyString, rest)
  | String c rest =>
      match field_end rest with
      | Some (field, after) => Some (String c field, after)
      | None => None
      end
  end.

Definition mentions (c : ascii) (s : string) : bool :=
  existsb (Ascii.eqb c) (list_ascii_of_string s).

(** An instance of [str.format] with the one keyword argument [version],
    for the examples.  It covers the doubled braces, the fields
    [{version}] and [{version!s}], a field of another plain name
    (KeyError) and a positional field (IndexError), and the malformed
    patterns with a lone or an unclosed brace (ValueError); a field with
    attribute access, an index, another conversion or a format
    specification is outside it and is given as ValueError too. *)
Fixpoint simple_format_from (fuel : nat) (pattern version : string) : outcome string :=
  match fuel with
  | O => Raise ValueError
  | S k =>
      let continue (text rest : string) :=
        match simple_format_from k rest version with
        | Return formatted => Return (text +:+ formatted)
        | Raise e => Raise e
        end in
      match pattern with
      | EmptyString => Return EmptyString
      | String "{" (String "{" rest) => continue "{"%string rest
      | String "}" (String "}" rest) => continue "}"%string rest
      | String "}" _ => Raise ValueError
      | String "{" rest =>
          match field_end rest with
          | None => Raise ValueError
          | Some (field, after) =>
              if String.eqb field "version" || String.eqb field "version!s"
              then continue version after
              else if forallb CoreSemver.is_digit (list_ascii_of_string field)
              then Raise IndexError
              else if mentions "." field || mentions "[" field || mentions "!" field
                      || mentions ":" field || mentions "{" field
              then Raise ValueError
              else Raise (KeyError field)
          end
      | String c rest => continue (String c EmptyString) rest
      end
  end.

Definition simple_format (pattern version : string) : outcome string :=
  simple_format_from (S (String.length pattern)) pattern version.

(** The path of a member with a plain relative name. *)
Definition plain_target (n : string) (dest : string) : option string :=
  Some (dest +:+ "/" +:+ n).

(* ===================================================================== *)
(** ** Notions the statements use *)
(* ===================================================================== *)

(** The cache directory and the directories above it. *)
Definition cache_chain : list string := path_chain None (Text.split "/" CACHE_ROOT).

(** The cache directory exists. *)
Definition cache_ready (w : world) : Prop :=
  ∀ q, q ∈ cache_chain → q ≠ EmptyString → fs w !! q = Some Dir.

(** The cache path of a URL, where it has one. *)
Definition cache_slot (url : string) : option string :=
  match cache_file_name url with
  | Return file_name => Some (CACHE_ROOT +:+ "/" +:+ file_name)
  | Raise _ => None
  end.

Definition sidecar (path : string) : string := path +:+ ".sha256".


(** No ["/"] in a path segment. *)
Definition segment (s : string) : Prop := Text.split "/" s = [s].

(** What [filter_files] is meant to hand out, glob by glob: the names the
    glob matches among those no earlier glob has taken. *)
Fixpoint select_by_glob (fnmatch : string -> string -> bool)
    (files : gset string) (globs : list string) : list string :=
  match globs with
  | [] => []
  | glob :: rest =>
      let ms := fnmatch_filter fnmatch files glob in
      ms ++ select_by_glob fnmatch (files ∖ list_to_set ms) rest
  end.

(** The candidate releases of the resolver, by the three tests of its
    description: the stripped tag parses, the release is not a
    prerelease, the version matches the range. *)
Definition is_candidate {V} (parse : string -> option V)
    (vmatch : V -> string -> option bool) (semver_range : string)
    (rel : release) : option (release * V) :=
  match parse (Text.lstrip "v" (default EmptyString (tag_name rel))) with
  | Some v =>
      if negb (prerelease rel) && bool_decide (vmatch v semver_range = Some true)
      then Some (rel, v) else None
  | None => None
  end.

Definition candidates {V} (parse : string -> option V)
    (vmatch : V -> string -> option bool) (releases : list release)
    (semver_range : string) : list (release * V) :=
  omap (is_candidate parse vmatch semver_range) releases.

(** What a step of the program keeps when it only adds entries below
    [ps]: everything but the file system, the entries that exist, and the
    paths outside [ps]. *)
Definition only_adds (ps : list string) (w w' : world) : Prop :=
  remote w' = remote w ∧ github w' = github w ∧
  config_file w' = config_file w ∧ pyproject_file w' = pyproject_file w ∧
  lock_file w' = lock_file w ∧ log w' = log w ∧
  (∀ p x, fs w !! p = Some x → fs w' !! p = Some x) ∧
  (∀ p, p ∉ ps → fs w' !! p = fs w !! p).

(** The world after a download that went through: the blob and its
    sidecar are written, the request and the hashing are logged. *)
Definition downloaded (url p : string) (r : response) (w0 : world) : world :=
  let w1 := add_event (Requested url) w0 in
  let w2 := set_fs (<[p := File (body r) default_mode]> (fs w1)) w1 in
  let w3 := add_event (Hashed p) w2 in
  let mode := match fs w3 !! sidecar p with
              | Some (File _ m) => m
              | _ => default_mode
              end in
  set_fs (<[sidecar p := File (Sha256.hexdigest (body r)) mode]> (fs w3)) w3.

(** The world after a download cut by a transport error. *)
Definition interrupted (url p : string) (r : response) (k : nat) (w0 : world) : world :=
  let w1 := add_event (Requested url) w0 in
  set_fs (<[p := File (String.substring 0 k (body r)) default_mode]> (fs w1)) w1.

(** A remote side that serves eleven bytes for one URL and loses the
    connection after five. *)
Definition flaky_url : string := "https://example.org/dl/tool".

Definition flaky_response : response := Response 200 "hello world" (Some 5%nat).

Definition flaky_world : world :=
  World ∅
    (fun u => if String.eqb u flaky_url then Responds flaky_response else Unreachable)
    (fun _ => ApiUnreachable) Absent Absent Absent [].

(** The same URL served whole. *)
Definition steady_world : world :=
  World ∅
    (fun u => if String.eqb u flaky_url
              then Responds (Response 200 "hello world" None) else Unreachable)
    (fun _ => ApiUnreachable) Absent Absent Absent [].

Definition flaky_path : string :=
  "/home/user/.cache/mazette/74ad6ffbf9ffc634fc3b394f5ce96f1501491ec6466fb2667458cdcb3209d377-tool".

(** Two source tarballs of one repository. *)
Definition tarball_v1_0_0 : string := "https://api.github.com/repos/o/r/tarball/v1.0.0".
Definition tarball_v1_1_0 : string := "https://api.github.com/repos/o/r/tarball/v1.1.0".

(** [k] times the letter v. *)
Fixpoint leading_vs (k : nat) : string :=
  match k with
  | O => EmptyString
  | S k' => String "v" (leading_vs k')
  end.

Definition with_tag (tag : string) (rel : release) : release :=
  Release (Some tag) (prerelease rel) (assets rel) (tarball_url rel) (zipball_url rel).

(** Declarations with one asset, the same with the two top-level keys
    the other way round, and the same with another version range. *)
Definition tool_declaration (range : string) : Json.value :=
  Json.VDict [("repo", Json.VStr "o/r"); ("version", Json.VStr range);
              ("destination", Json.VStr "bin/tool")].

Definition declarations : Json.value :=
  Json.VDict [("asset", Json.VDict [("tool", tool_declaration ">=1.0.0")]);
              ("title", Json.VStr "tools")].

Definition declarations_reordered : Json.value :=
  Json.VDict [("title", Json.VStr "tools");
              ("asset", Json.VDict [("tool", tool_declaration ">=1.0.0")])].

Definition declarations_mutated : Json.value :=
  Json.VDict [("asset", Json.VDict [("tool", tool_declaration ">=2.0.0")]);
              ("title", Json.VStr "tools")].

Definition world_with_config (config : Json.value) (lock : document) : world :=
  World ∅ (fun _ => Unreachable) (fun _ => ApiUnreachable) (Holds config) Absent lock [].

Definition empty_lock : Json.value := Json.VDict [("assets", Json.VDict [])].

(** The same world with other declarations in [mazette.toml]. *)
Definition set_config_file (d : document) (w : world) : world :=
  World (fs w) (remote w) (github w) d (pyproject_file w) (lock_file w) (log w).

(** A release tagged with two leading v, with an asset for either
    reading of the version. *)
Definition double_v_release : release :=
  Release (Some "vv1.2.0") false
    [ReleaseAsset "tool-1.2.0" "https://example.org/a";
     ReleaseAsset "tool-v1.2.0" "https://example.org/b"] "" "".

(** The releases of a repository: one below the range, one in it, a
    prerelease above it, and a tag that is no version. *)
Definition tool_releases : list release :=
  [ Release (Some "v0.9.0") false [ReleaseAsset "tool-linux" "https://example.org/0.9.0/tool-linux"] "" "";
    Release (Some "v1.2.0") false [ReleaseAsset "tool-linux" "https://example.org/1.2.0/tool-linux"] "" "";
    Release (Some "v1.1.0") false [ReleaseAsset "tool-linux" "https://example.org/1.1.0/tool-linux"] "" "";
    Release (Some "v2.0.0") true [] "" "";
    Release (Some "nightly") false [] "" "" ].

Definition release_world : world :=
  World ∅ (fun _ => Unreachable)
    (fun repo => if String.eqb repo "o/r" then ApiResponse 200 tool_releases
                 else ApiResponse 404 [])
    Absent Absent Absent [].

(** An archive with one member of mode 0o644, served for one URL, and the
    lock entry that extracts it and asks for the executable bit. *)
Definition archive_url : string := "https://example.org/dl/tool.tar.gz".

Definition archive_members (mode data : string) : option (list member) :=
  if String.eqb data "TARBYTES" then Some [Member "bin/tool" "ELF" 420 (plain_target "bin/tool")] else None.

Definition archive_world : world :=
  World ∅
    (fun u => if String.eqb u archive_url
              then Responds (Response 200 "TARBYTES" None) else Unreachable)
    (fun _ => ApiUnreachable) Absent Absent Absent [].

Definition archive_entry (exe : bool) (how : option ExtractOpts) : Asset :=
  MkAsset "o/r" archive_url "1.0.0" "out/tool"
    "5162cbec3ea14a4f42436c2cd45347a4a133bd4b28a6d301e038b004f95e7c2c" exe how.

Definition extract_everything : ExtractOpts :=
  MkExtractOpts ["*"%string] (Some "tar.gz"%string) false.

(* ===================================================================== *)
(** ** More of the program *)
(* ===================================================================== *)

(** The archive type goes by the name of the release asset. *)
Definition detect_archive_type (asset : string) : outcome string :=
  if Text.endswith ".tar.gz" asset || Text.endswith ".tgz" asset
     || String.eqb asset "!tarball"
  then Return "tar.gz"%string
  else if Text.endswith ".tar" asset then Return "tar"%string
  else if Text.endswith ".zip" asset || String.eqb asset "!zipball"
  then Return "zip"%string
  else Raise (UnsupportedArchiveName asset).

(** The loop body of [get_platform_assets]: the entry of the platform,
    else the entry of ["all"], else nothing, assigned under the asset
    name. *)
Definition add_platform_asset {A} (platform : string)
    (plat_assets : list (string * A)) (item : string * list (string * A))
  : list (string * A) :=
  match Json.assoc_get platform (snd item) with
  | Some a => Json.assoc_set (fst item) a plat_assets
  | None =>
      match Json.assoc_get "all" (snd item) with
      | Some a => Json.assoc_set (fst item) a plat_assets
      | None => plat_assets
      end
  end.

(** The loop runs over the assets in the order of the lock's mapping. *)
Definition get_platform_assets {A} (assets : list (string * list (string * A)))
    (platform : string) : list (string * A) :=
  fold_left (add_platform_asset platform) assets [].

(** The entry at [p] is [x], or is gone, or is a directory. *)
Definition at_most (p : string) (x : node) (w : world) : Prop :=
  fs w !! p = Some x ∨ fs w !! p = None ∨ fs w !! p = Some Dir.



(** The asset table of a lock with one asset for every platform and one
    for Linux only. *)
Definition lock_assets : list (string * list (string * Asset)) :=
  [ ("tool"%string, [("all"%string, archive_entry true None)]);
    ("helper"%string, [("linux/amd64"%string, archive_entry false None)]) ].

(** The entry [install_asset] takes from the table of one asset: the one
    of the platform, else the one of ["all"]. *)
Definition platform_entry {A} (platform : string) (asset_dict : list (string * A))
  : option A :=
  match Json.assoc_get platform asset_dict with
  | Some a => Some a
  | None => Json.assoc_get "all" asset_dict
  end.

(** The archive types [extract_asset] knows. *)
Definition archive_types : list string := ["tar.gz"; "tar"; "zip"]%string.


(** Every regular file of [w], by its bytes and its permission bits,
    satisfies [P]. *)
Definition each_file (P : string → Z → Prop) (w : world) : Prop :=
  ∀ q d m, fs w !! q = Some (File d m) → P d m.

(** [w] has a regular file with these bytes and bits, or with these
    bits. *)
Definition file_of (w : world) (d : string) (m : Z) : Prop :=
  ∃ q, fs w !! q = Some (File d m).

Definition bits_of (w : world) (m : Z) : Prop :=
  ∃ q d, fs w !! q = Some (File d m).

(** The permission bits the ["data"] filter leaves a regular file: none
    above 0o777, no write bit for group or others, read and write for
    the owner. *)
Definition filtered_mode (m : Z) : Prop :=
  0 ≤ m < 512 ∧ Z.land m 18 = 0 ∧ Z.land m 384 = 384.

(** Every regular file below [dest] has bytes that satisfy [held]. *)
Definition below_from (dest : string) (held : string → Prop) (w : world) : Prop :=
  ∀ q d m, under dest q = true → fs w !! q = Some (File d m) → held d.

(** The same lock entry with another executable flag. *)
Definition with_executable (flag : bool) (a : Asset) : Asset :=
  MkAsset (repo a) (download_url a) (version a) (destination a) (checksum a)
    flag (extract a).


#[local] Set Warnings "-clear-no-such-hyp".

(* ===================================================================== *)
(** * Properties *)
(* ===================================================================== *)

(** ** SHA-256 on the test vectors of FIPS 180-4 *)

Example sha256_abc :
  Sha256.hexdigest "abc"
  = "ba7816bf8f01cfea414140de5dae2223b00361a396177a9cb410ff61f20015ad"%string.
Proof. vm_compute. reflexivity. Qed.

Example sha256_empty :
  Sha256.hexdigest ""
  = "e3b0c44298fc1c149afbf4c8996fb92427ae41e4649b934ca495991b7852b855"%string.
Proof. vm_compute. reflexivity. Qed.

Example sha256_two_blocks :
  Sha256.hexdigest "abcdbcdecdefdefgefghfghighijhijkijkljklmklmnlmnomnopnopq"
  = "248d6a61d20638b8e5c026930c3e6039a33ce45964ff2167f6ecedd419db06c1"%string.
Proof. vm_compute. reflexivity. Qed.

(** ** Running the monad *)

Lemma bind_Return {A B} (m : M A) (k : A -> M B) w a w' :
  m w = (Return a, w') → bind m k w = k a w'.
Proof. intros H. unfold bind. by rewrite H. Qed.

Lemma bind_Raise {A B} (m : M A) (k : A -> M B) w e w' :
  m w = (Raise e, w') → bind m k w = (Raise e, w').
Proof. intros H. unfold bind. by rewrite H. Qed.


Lemma string_app_length a b :
  String.length (a +:+ b) = (String.length a + String.length b)%nat.
Proof.
  induction a as [|c a IH]; [done|].
  change (String c a +:+ b) with (String c (a +:+ b)). simpl. by rewrite IH.
Qed.

Lemma string_app_assoc a b c : (a +:+ b) +:+ c = a +:+ (b +:+ c).
Proof.
  induction a as [|x a IH]; [done|].
  change (String x a +:+ b) with (String x (a +:+ b)).
  change (String x (a +:+ b) +:+ c) with (String x ((a +:+ b) +:+ c)).
  by rewrite IH.
Qed.

Lemma string_app_nil_r a : a +:+ "" = a.
Proof.
  induction a as [|x a IH]; [done|].
  change (String x a +:+ "") with (String x (a +:+ "")). by rewrite IH.
Qed.

(** ** Directories of the cache *)

Lemma only_adds_refl ps w : only_adds ps w w.
Proof. by repeat split. Qed.

Lemma only_adds_trans ps w1 w2 w3 :
  only_adds ps w1 w2 → only_adds ps w2 w3 → only_adds ps w1 w3.
Proof.
  intros (?&?&?&?&?&?&Hk1&Ho1) (?&?&?&?&?&?&Hk2&Ho2).
  repeat split; try congruence; [by eauto|].
  intros p Hp. by rewrite Ho2, Ho1.
Qed.

Lemma mkdir_one_cases p w :
  (mkdir_one p w = (Return tt, w) ∧ (p = EmptyString ∨ fs w !! p = Some Dir))
  ∨ (mkdir_one p w = (Return tt, set_fs (<[p := Dir]> (fs w)) w)
     ∧ p ≠ EmptyString ∧ fs w !! p = None)
  ∨ (mkdir_one p w = (Raise (OSError p), w) ∧ ∃ d m, fs w !! p = Some (File d m)).
Proof.
  unfold mkdir_one. destruct (String.eqb_spec p "") as [->|Hp]; [by auto|].
  destruct (fs w !! p) as [[d m|]|]; eauto 7.
Qed.

Lemma mkdir_one_only_adds ps p w o w' :
  p ∈ ps → mkdir_one p w = (o, w') → only_adds ps w w'.
Proof.
  intros Hin H.
  destruct (mkdir_one_cases p w) as [[E _]|[(E & Hp & Hnone)|[E _]]];
    rewrite E in H; simplify_eq; try apply only_adds_refl.
  repeat split; simpl.
  - intros q x Hq. rewrite lookup_insert_ne; [done|]. congruence.
  - intros q Hq. rewrite lookup_insert_ne; [done|]. intros ->. done.
Qed.

Lemma mkdir_each_only_adds ps qs w o w' :
  qs ⊆ ps → mkdir_each qs w = (o, w') → only_adds ps w w'.
Proof.
  revert w. induction qs as [|q qs IH]; intros w Hsub H; cbn in H.
  - unfold ret in H. simplify_eq. apply only_adds_refl.
  - unfold bind in H. destruct (mkdir_one q w) as [[[]|e] w1] eqn:E1.
    + eapply only_adds_trans.
      * eapply mkdir_one_only_adds; [|exact E1]. set_solver.
      * apply IH; [set_solver|done].
    + simplify_eq. eapply mkdir_one_only_adds; [|exact E1]. set_solver.
Qed.

Lemma mkdir_each_dirs qs w w' :
  mkdir_each qs w = (Return tt, w') →
  ∀ q, q ∈ qs → q ≠ EmptyString → fs w' !! q = Some Dir.
Proof.
  revert w. induction qs as [|q0 qs IH]; intros w H q Hq Hne.
  - set_solver.
  - cbn in H. unfold bind in H.
    destruct (mkdir_one q0 w) as [[[]|e] w1] eqn:E1; [|done].
    apply elem_of_cons in Hq as [->|Hq]; [|by eauto].
    assert (fs w1 !! q0 = Some Dir) as Hd.
    { destruct (mkdir_one_cases q0 w) as [[E [?|?]]|[(E & _ & _)|[E _]]];
        rewrite E in E1; simplify_eq; [done|]. simpl. apply lookup_insert_eq. }
    pose proof (mkdir_each_only_adds qs qs w1 _ w' ltac:(done) H) as (_&_&_&_&_&_&Hk&_).
    by apply Hk.
Qed.

Lemma mkdir_each_noop qs w :
  (∀ q, q ∈ qs → q ≠ EmptyString → fs w !! q = Some Dir) →
  mkdir_each qs w = (Return tt, w).
Proof.
  induction qs as [|q qs IH]; intros Hd; cbn; [done|].
  assert (mkdir_one q w = (Return tt, w)) as E.
  { destruct (mkdir_one_cases q w) as [[E _]|[(E & Hp & Hnone)|[E (d & m & Hf)]]];
      [done| |].
    - rewrite Hd in Hnone; [done|set_solver|done].
    - destruct (decide (q = EmptyString)) as [->|Hq].
      + by unfold mkdir_one.
      + rewrite Hd in Hf; [done|set_solver|done]. }
  rewrite (bind_Return _ _ _ _ _ E). apply IH. intros; apply Hd; [set_solver|done].
Qed.

Lemma cache_slot_name url p :
  cache_slot url = Some p ↔
  ∃ n, cache_file_name url = Return n ∧ p = CACHE_ROOT +:+ "/" +:+ n.
Proof.
  unfold cache_slot. destruct (cache_file_name url) as [n|e]; split.
  - intros [= <-]. by exists n.
  - by intros (n' & [= <-] & ->).
  - done.
  - by intros (n' & [=] & _).
Qed.

Lemma cache_chain_eq : path_chain None (Text.split "/" CACHE_ROOT) = cache_chain.
Proof. vm_compute. reflexivity. Qed.

Lemma mkdir_parents_cache : mkdir_parents CACHE_ROOT = mkdir_each cache_chain.
Proof. unfold mkdir_parents. by rewrite cache_chain_eq. Qed.

Lemma cache_file_path_ready url w p :
  cache_ready w → cache_slot url = Some p → cache_file_path url w = (Return p, w).
Proof.
  intros Hr (n & Hn & ->)%cache_slot_name. unfold cache_file_path.
  rewrite mkdir_parents_cache.
  rewrite (bind_Return _ _ w n w) by (by unfold lift; rewrite Hn).
  rewrite (bind_Return _ _ w tt w); [done|].
  apply mkdir_each_noop. exact Hr.
Qed.

Lemma cache_file_path_Return url w p w' :
  cache_file_path url w = (Return p, w') →
  cache_slot url = Some p ∧ cache_ready w' ∧ only_adds cache_chain w w'.
Proof.
  unfold cache_file_path. rewrite mkdir_parents_cache.
  unfold bind, lift, cache_slot. intros H.
  destruct (cache_file_name url) as [n|e]; [|done].
  destruct (mkdir_each cache_chain w) as [[[]|e] w1] eqn:E; [|done].
  unfold ret in H. simplify_eq. split; [done|]. split.
  - intros q Hq Hne. exact (mkdir_each_dirs _ _ _ E q Hq Hne).
  - exact (mkdir_each_only_adds cache_chain cache_chain _ _ _ (reflexivity _) E).
Qed.


Lemma mkdir_each_Raise qs w e w' :
  mkdir_each qs w = (Raise e, w') → ∃ q, e = OSError q.
Proof.
  revert w. induction qs as [|q qs IH]; intros w H; cbn in H; [done|].
  unfold bind in H.
  destruct (mkdir_one_cases q w) as [[E _]|[(E & _ & _)|[E _]]];
    rewrite E in H; [by eauto|by eauto|]. simplify_eq. by exists q.
Qed.


Lemma cache_file_path_unslotted url w :
  cache_slot url = None →
  cache_file_path url w = (Raise (MalformedDownloadUrl url), w).
Proof.
  unfold cache_slot, cache_file_path, bind, lift, cache_file_name.
  destruct (_ <? _)%nat; [done|]. by intros [=].
Qed.

Lemma slot_outside_chain n suffix :
  (CACHE_ROOT +:+ "/" +:+ n +:+ suffix) ∉ cache_chain.
Proof.
  intros H. vm_compute in H.
  repeat (apply elem_of_cons in H as [H|H]; [discriminate H|]).
  by apply elem_of_nil in H.
Qed.

Lemma sidecar_neq p : p ≠ sidecar p.
Proof.
  unfold sidecar. intros H. apply (f_equal String.length) in H.
  rewrite string_app_length in H. simpl in H. lia.
Qed.

Lemma sidecar_neq_sym p : sidecar p ≠ p.
Proof. intros H. by apply (sidecar_neq p). Qed.

Lemma cache_slot_outside url p :
  cache_slot url = Some p → (p ∉ cache_chain) ∧ (sidecar p ∉ cache_chain).
Proof.
  intros (n & _ & ->)%cache_slot_name. split.
  - rewrite <- (string_app_nil_r n). apply slot_outside_chain.
  - unfold sidecar. rewrite !string_app_assoc. apply slot_outside_chain.
Qed.

(** ** Hashing a stream in chunks *)

Lemma stream_read_split n s :
  ∀ chunk remaining, stream_read n s = (chunk, remaining) →
  s = chunk +:+ remaining ∧
  (n ≠ 0%N → s ≠ EmptyString → chunk ≠ EmptyString).
Proof.
  revert n. induction s as [|c s IH]; intros n chunk remaining H; simpl in H.
  - by simplify_eq.
  - destruct (N.eqb_spec n 0) as [->|Hn].
    + by simplify_eq.
    + destruct (stream_read (N.pred n) s) as [a b] eqn:E. simplify_eq.
      destruct (IH _ _ _ E) as [-> _]. done.
Qed.

Lemma read_chunks_all fuel n s h :
  n ≠ 0%N → (String.length s < fuel)%nat →
  read_chunks fuel n s h = h +:+ s.
Proof.
  intros Hn. revert s h. induction fuel as [|fuel IH]; intros s h Hlen; [lia|].
  simpl. destruct (stream_read n s) as [chunk remaining] eqn:E.
  destruct (stream_read_split _ _ _ _ E) as [-> Hne].
  destruct (String.eqb_spec chunk "") as [->|Hc].
  - destruct remaining as [|c r]; [by rewrite string_app_nil_r|].
    exfalso. by apply Hne.
  - rewrite IH.
    + unfold hash_update. by rewrite string_app_assoc.
    + rewrite string_app_length in Hlen. destruct chunk; [done|]. simpl in Hlen. lia.
Qed.

Lemma calc_checksum_sha256 data : calc_checksum data = Sha256.hexdigest data.
Proof.
  unfold calc_checksum. rewrite read_chunks_all; [done| |lia].
  by vm_compute.
Qed.

(** ** Steps of the cache functions *)

Lemma cache_ready_same_fs w w' : fs w' = fs w → cache_ready w → cache_ready w'.
Proof. unfold cache_ready. intros ->. done. Qed.

Lemma cache_ready_insert p x w :
  p ∉ cache_chain → cache_ready w → cache_ready (set_fs (<[p := x]> (fs w)) w).
Proof.
  intros Hp Hr q Hq Hne. simpl. rewrite lookup_insert_ne; [by apply Hr|].
  intros ->. done.
Qed.

Lemma cache_ready_delete p w :
  p ∉ cache_chain → cache_ready w → cache_ready (set_fs (delete p (fs w)) w).
Proof.
  intros Hp Hr q Hq Hne. simpl. rewrite lookup_delete_ne; [by apply Hr|].
  intros ->. done.
Qed.

Lemma checksum_of_file_File p data mode w :
  fs w !! p = Some (File data mode) →
  checksum_of_file p w = (Return (Sha256.hexdigest data), add_event (Hashed p) w).
Proof.
  intros H. unfold checksum_of_file, bind, read_file. rewrite H.
  by rewrite calc_checksum_sha256.
Qed.

Lemma checksum_file_path_ready url w p :
  cache_ready w → cache_slot url = Some p →
  checksum_file_path url w = (Return (sidecar p), w).
Proof.
  intros Hr Hs. unfold checksum_file_path.
  by rewrite (bind_Return _ _ _ _ _ (cache_file_path_ready _ _ _ Hr Hs)).
Qed.

Lemma get_cached_url_Return url w p w0 :
  cache_file_path url w = (Return p, w0) →
  get_cached_url url w =
    (Return (if bool_decide (is_Some (fs w0 !! p)) then Some p else None), w0).
Proof.
  intros H. unfold get_cached_url. rewrite (bind_Return _ _ _ _ _ H). done.
Qed.

Lemma download_to_cache_hit url w p w0 :
  cache_file_path url w = (Return p, w0) → is_Some (fs w0 !! p) →
  download_to_cache url w = (Return p, w0).
Proof.
  intros H Hp. unfold download_to_cache.
  rewrite (bind_Return _ _ _ _ _ (get_cached_url_Return _ _ _ _ H)).
  by rewrite bool_decide_eq_true_2.
Qed.

Lemma download_to_cache_miss url w p w0 :
  cache_file_path url w = (Return p, w0) → fs w0 !! p = None →
  download_to_cache url w =
    match remote w url with
    | Unreachable => (Raise ConnectionError, add_event (Requested url) w0)
    | Responds r =>
        if (400 <=? status_code r) && (status_code r <? 600)
        then (Raise (HTTPError (status_code r)), add_event (Requested url) w0)
        else match cut r with
             | Some k => (Raise TransportError, interrupted url p r k w0)
             | None =>
                 match fs w0 !! sidecar p with
                 | Some Dir =>
                     (Raise (OSError (sidecar p)),
                      add_event (Hashed p)
                        (set_fs (<[p := File (body r) default_mode]> (fs w0))
                           (add_event (Requested url) w0)))
                 | _ => (Return p, downloaded url p r w0)
                 end
             end
    end.
Proof.
  intros H Hnone.
  destruct (cache_file_path_Return _ _ _ _ H) as (Hslot & Hready & Hadds).
  destruct Hadds as (Hrem & _).
  destruct (cache_slot_outside _ _ Hslot) as [Hp Hsp].
  unfold download_to_cache.
  rewrite (bind_Return _ _ _ _ _ (get_cached_url_Return _ _ _ _ H)).
  rewrite bool_decide_eq_false_2 by (rewrite Hnone; by intros [? ?]).
  unfold bind at 1. unfold requests_get. rewrite Hrem.
  destruct (remote w url) as [|r]; [done|].
  unfold bind at 1. unfold raise_for_status.
  destruct ((400 <=? status_code r) && (status_code r <? 600)); [done|].
  unfold ret at 1.
  set (w1 := add_event (Requested url) w0).
  assert (cache_ready w1) as Hr1 by (by apply (cache_ready_same_fs w0)).
  rewrite (bind_Return _ _ _ _ _ (cache_file_path_ready _ _ _ Hr1 Hslot)).
  assert (fs w1 !! p = None) as Hn1 by done.
  unfold copy_body_to. destruct (cut r) as [k|].
  - unfold bind, write_file. by rewrite Hn1.
  - unfold bind at 1. unfold write_file at 1. rewrite Hn1.
    set (w2 := set_fs _ w1).
    erewrite (bind_Return _ _ w2); cycle 1.
    { apply checksum_of_file_File with (mode := default_mode).
      simpl. apply lookup_insert_eq. }
    set (w3 := add_event (Hashed p) w2).
    assert (cache_ready w3) as Hr3.
    { apply (cache_ready_same_fs w2); [done|].
      exact (cache_ready_insert p _ w1 Hp Hr1). }
    unfold store_checksum_in_cache.
    unfold bind at 1.
    rewrite (bind_Return _ _ _ _ _ (checksum_file_path_ready _ _ _ Hr3 Hslot)).
    assert (fs w3 !! sidecar p = fs w0 !! sidecar p) as Hside.
    { simpl. rewrite lookup_insert_ne; [done|]. apply sidecar_neq. }
    unfold write_file, downloaded. fold w1. fold w2. fold w3. rewrite Hside.
    by destruct (fs w0 !! sidecar p) as [[d m|]|].
Qed.

Lemma downloaded_facts url p r w0 :
  fs (downloaded url p r w0) !! p = Some (File (body r) default_mode) ∧
  (∃ m, fs (downloaded url p r w0) !! sidecar p
        = Some (File (Sha256.hexdigest (body r)) m)) ∧
  log (downloaded url p r w0) = log w0 ++ [Requested url; Hashed p] ∧
  remote (downloaded url p r w0) = remote w0 ∧
  (∀ q, q ≠ p → q ≠ sidecar p → fs (downloaded url p r w0) !! q = fs w0 !! q).
Proof.
  unfold downloaded. cbn [fs log remote add_event set_fs]. repeat split.
  - rewrite lookup_insert_ne by (symmetry; apply sidecar_neq).
    apply lookup_insert_eq.
  - eexists. apply lookup_insert_eq.
  - by rewrite <- app_assoc.
  - intros q Hq Hs. by rewrite !lookup_insert_ne.
Qed.

Lemma download_to_cache_Return url w p w1 :
  download_to_cache url w = (Return p, w1) →
  cache_slot url = Some p ∧ cache_ready w1 ∧
  ((∃ w0, cache_file_path url w = (Return p, w0) ∧ is_Some (fs w0 !! p) ∧ w1 = w0)
   ∨ (∃ w0 r, cache_file_path url w = (Return p, w0) ∧ fs w0 !! p = None
        ∧ remote w url = Responds r ∧ cut r = None
        ∧ w1 = downloaded url p r w0)).
Proof.
  intros H.
  destruct (cache_file_path url w) as [[p0|e] w0] eqn:E.
  - destruct (cache_file_path_Return _ _ _ _ E) as (Hslot & Hready & Hadds).
    destruct (cache_slot_outside _ _ Hslot) as [Hp Hsp].
    destruct (fs w0 !! p0) as [x|] eqn:Ex.
    + rewrite (download_to_cache_hit _ _ _ _ E) in H by (by rewrite Ex).
      simplify_eq. split; [done|]. split; [done|]. left. exists w1.
      by rewrite Ex.
    + rewrite (download_to_cache_miss _ _ _ _ E Ex) in H.
      destruct (remote w url) as [|r]; [done|].
      destruct ((400 <=? status_code r) && (status_code r <? 600)); [done|].
      destruct (cut r) as [k|] eqn:Ek; [done|].
      assert (p = p0 ∧ w1 = downloaded url p0 r w0) as [-> ->].
      { by destruct (fs w0 !! sidecar p0) as [[? ?|]|]; simplify_eq. }
      split; [done|]. split.
      * intros q Hq Hne.
        destruct (downloaded_facts url p0 r w0) as (_ & _ & _ & _ & Hother).
        rewrite Hother; [by apply Hready| |]; intros ->; done.
      * right. by exists w0, r.
  - unfold download_to_cache, get_cached_url in H.
    rewrite (bind_Raise _ _ _ _ _ (bind_Raise _ _ _ _ _ E)) in H. done.
Qed.

(** ** Cache hits (C5) *)

(** C5: when the blob is at the cache path, [download_to_cache] returns
    that path and leaves the world as it was: the log gains no request and
    no hashing, the files are the same.  A call that returns leaves the
    blob at the cache path: either it was there, and then nothing was
    requested or hashed and the blob is the one that was there, or it was
    not, and then the log gained exactly one request and one hashing and
    the blob is the body that was served.  A second call after it returns
    the same path and changes nothing. *)
Theorem download_to_cache_twice url w :
  (∀ p, cache_slot url = Some p → cache_ready w → is_Some (fs w !! p) →
        download_to_cache url w = (Return p, w))
  ∧ (∀ p w1, download_to_cache url w = (Return p, w1) →
        download_to_cache url w1 = (Return p, w1)
        ∧ cache_slot url = Some p
        ∧ ((is_Some (fs w !! p) ∧ fs w1 !! p = fs w !! p ∧ log w1 = log w)
           ∨ (fs w !! p = None
              ∧ ∃ r, remote w url = Responds r ∧ cut r = None
                     ∧ fs w1 !! p = Some (File (body r) default_mode)
                     ∧ log w1 = log w ++ [Requested url; Hashed p]))).
Proof.
  assert (∀ v p, cache_slot url = Some p → cache_ready v → is_Some (fs v !! p) →
                 download_to_cache url v = (Return p, v)) as Hit.
  { intros v p Hslot Hready Hp.
    apply download_to_cache_hit; [|done]. by apply cache_file_path_ready. }
  split; [apply Hit|].
  intros p w1 H.
  destruct (download_to_cache_Return _ _ _ _ H) as (Hslot & Hready & Hcase).
  destruct (cache_slot_outside _ _ Hslot) as [Hout _].
  destruct Hcase as [(w0 & E & Hp & ->)|(w0 & r & E & Hnone & Hr & Hcut & ->)];
    destruct (cache_file_path_Return _ _ _ _ E)
      as (_ & _ & _ & _ & _ & _ & _ & Hl & _ & Hsame);
    specialize (Hsame p Hout).
  - split; [by apply Hit|]. split; [done|]. left.
    rewrite <- Hsame. done.
  - destruct (downloaded_facts url p r w0) as (Hblob & _ & Hlog & _).
    split; [apply Hit; [done|done|by rewrite Hblob]|]. split; [done|]. right.
    split; [by rewrite <- Hsame|]. exists r.
    split; [done|]. split; [done|]. split; [done|]. by rewrite Hlog, Hl.
Qed.


Lemma download_to_cache_twice_witness :
  let w1 := snd (download_to_cache flaky_url steady_world) in
  let p := "/home/user/.cache/mazette/74ad6ffbf9ffc634fc3b394f5ce96f1501491ec6466fb2667458cdcb3209d377-tool"%string in
  download_to_cache flaky_url w1 = (Return p, w1)
  ∧ cache_slot flaky_url = Some p
  ∧ ((is_Some (fs steady_world !! p) ∧ fs w1 !! p = fs steady_world !! p
      ∧ log w1 = log steady_world)
     ∨ (fs steady_world !! p = None
        ∧ ∃ r, remote steady_world flaky_url = Responds r ∧ cut r = None
               ∧ fs w1 !! p = Some (File (body r) default_mode)
               ∧ log w1 = log steady_world ++ [Requested flaky_url; Hashed p])).
Proof.
  intros w1 p.
  apply (proj2 (download_to_cache_twice flaky_url steady_world) p w1).
  vm_compute. reflexivity.
Defined.

(** ** Verification after the download (C1) *)

(** C1: whenever [download_to_cache] hands back a blob (a regular file
    whose sidecar path is not a directory), [download_to_cache_and_verify]
    hashes that blob, also when it was in the cache already and nothing
    was requested; on a digest other than the expected one it fails with
    the hash-mismatch error carrying the URL, the computed and the expected
    digest, and neither the blob nor its sidecar is on disk afterwards;
    on the expected digest it returns the path and leaves the files. *)
Theorem download_to_cache_and_verify_evicts url expected w p w1 data mode :
  download_to_cache url w = (Return p, w1) →
  fs w1 !! p = Some (File data mode) →
  fs w1 !! sidecar p ≠ Some Dir →
  ∃ w2,
    download_to_cache_and_verify url expected w =
      (if String.eqb (Sha256.hexdigest data) expected then Return p
       else Raise (HashMismatch url (Sha256.hexdigest data) expected), w2)
    ∧ log w2 = log w1 ++ [Hashed p]
    ∧ (is_Some (fs w !! p) → log w1 = log w)
    ∧ (Sha256.hexdigest data ≠ expected →
         fs w2 !! p = None ∧ fs w2 !! sidecar p = None)
    ∧ (Sha256.hexdigest data = expected → fs w2 = fs w1).
Proof.
  intros H Hblob Hside.
  destruct (download_to_cache_Return _ _ _ _ H) as (Hslot & Hready & Hcase).
  unfold download_to_cache_and_verify.
  rewrite (bind_Return _ _ _ _ _ H).
  rewrite (bind_Return _ _ _ _ _ (checksum_file_path_ready _ _ _ Hready Hslot)).
  rewrite (bind_Return _ _ _ _ _ (checksum_of_file_File _ _ _ _ Hblob)).
  assert (is_Some (fs w !! p) → log w1 = log w) as Hcached.
  { intros Hw.
    destruct Hcase as [(w0 & E & _ & ->)|(w0 & r & E & Hnone & _)];
      destruct (cache_file_path_Return _ _ _ _ E) as (_ & _ & _ & _ & _ & _ & _ & Hl & Hk & _).
    - done.
    - destruct Hw as [x Hx]. apply Hk in Hx. congruence. }
  destruct (String.eqb_spec (Sha256.hexdigest data) expected) as [Heq|Hne]; cbn [negb].
  - eexists. split; [reflexivity|]. repeat split; try done.
  - set (wh := add_event (Hashed p) w1).
    assert (unlink_missing_ok p wh = (Return tt, set_fs (delete p (fs wh)) wh)) as U1.
    { unfold unlink_missing_ok. change (fs wh) with (fs w1). by rewrite Hblob. }
    rewrite (bind_Return _ _ _ _ _ U1).
    set (wd := set_fs (delete p (fs wh)) wh).
    assert (fs wd !! sidecar p = fs w1 !! sidecar p) as Hs.
    { simpl. apply lookup_delete_ne. apply sidecar_neq. }
    assert (∃ w2, unlink_missing_ok (sidecar p) wd = (Return tt, w2)
                  ∧ log w2 = log w1 ++ [Hashed p]
                  ∧ fs w2 !! p = None ∧ fs w2 !! sidecar p = None)
      as (w2 & U2 & Hl & Hp & Hsp).
    { unfold unlink_missing_ok. rewrite Hs.
      destruct (fs w1 !! sidecar p) as [[d m|]|] eqn:Es; [|done|].
      - eexists. split; [reflexivity|]. simpl. split; [done|]. split.
        + rewrite lookup_delete_ne by apply sidecar_neq_sym. apply lookup_delete_eq.
        + apply lookup_delete_eq.
      - exists wd. split; [reflexivity|]. split; [done|]. split.
        + simpl. apply lookup_delete_eq.
        + by rewrite Hs. }
    rewrite (bind_Return _ _ _ _ _ U2).
    exists w2. unfold raise. repeat split; try done.
Qed.

Lemma download_to_cache_and_verify_evicts_witness :
  let p := "/home/user/.cache/mazette/74ad6ffbf9ffc634fc3b394f5ce96f1501491ec6466fb2667458cdcb3209d377-tool"%string in
  let w1 := snd (download_to_cache flaky_url flaky_world) in
  let computed := Sha256.hexdigest "hello" in
  ∃ w2,
    download_to_cache_and_verify flaky_url "abc" w1 =
      (if String.eqb computed "abc" then Return p
       else Raise (HashMismatch flaky_url computed "abc"), w2)
    ∧ log w2 = log w1 ++ [Hashed p]
    ∧ (computed ≠ "abc"%string → fs w2 !! p = None ∧ fs w2 !! sidecar p = None).
Proof.
  intros p w1 computed.
  destruct (download_to_cache_and_verify_evicts flaky_url "abc" w1 p w1 "hello" 420)
    as (w2 & Hrun & Hlog & _ & Hgone & _).
  - vm_compute. reflexivity.
  - vm_compute. reflexivity.
  - vm_compute. intros [=].
  - exists w2. split; [exact Hrun|]. split; [exact Hlog|exact Hgone].
Defined.

(** ** Failed downloads (C4) *)





(** ** Cache paths of source archives (C8) *)

Lemma split_nonempty sep s : Text.split sep s ≠ [].
Proof.
  destruct s as [|c s]; simpl; [done|].
  destruct (Ascii.eqb c sep); [done|]. by destruct (Text.split sep s).
Qed.

Lemma split_app sep a b :
  Text.split sep (a +:+ String sep b) = Text.split sep a ++ Text.split sep b.
Proof.
  induction a as [|c a IH].
  - change ("" +:+ String sep b) with (String sep b). simpl.
    by rewrite Ascii.eqb_refl.
  - change (String c a +:+ String sep b) with (String c (a +:+ String sep b)).
    simpl. destruct (Ascii.eqb c sep).
    + by rewrite IH.
    + rewrite IH. pose proof (split_nonempty sep a).
      by destruct (Text.split sep a).
Qed.

Lemma from_end_last3 {A} (l : list A) (x y z d : A) :
  Text.from_end 1 (l ++ [x; y; z]) d = z ∧
  Text.from_end 2 (l ++ [x; y; z]) d = y ∧
  Text.from_end 3 (l ++ [x; y; z]) d = x.
Proof. unfold Text.from_end. by rewrite rev_app_distr. Qed.

Lemma source_archive_name base repo kind ref :
  segment repo → segment ref → kind = "tarball"%string ∨ kind = "zipball"%string →
  cache_file_name (base +:+ "/" +:+ repo +:+ "/" +:+ kind +:+ "/" +:+ ref)
  = Return (Sha256.hexdigest
              (Text.encode_utf8 (base +:+ "/" +:+ repo +:+ "/" +:+ kind +:+ "/" +:+ ref))
            +:+ "-" +:+ repo +:+ "-" +:+ kind).
Proof.
  intros Hrepo Href Hkind. unfold cache_file_name.
  assert (Text.split "/" (base +:+ "/" +:+ repo +:+ "/" +:+ kind +:+ "/" +:+ ref)
          = Text.split "/" base ++ [repo; kind; ref]) as ->.
  { change ("/" +:+ repo +:+ "/" +:+ kind +:+ "/" +:+ ref)
      with (String "/" (repo +:+ String "/" (kind +:+ String "/" ref))).
    rewrite !split_app, Hrepo, Href.
    by destruct Hkind as [-> | ->]. }
  destruct (from_end_last3 (Text.split "/" base) repo kind ref EmptyString)
    as (-> & -> & ->).
  rewrite length_app. simpl length.
  replace (length (Text.split "/" base) + 3 <? 3)%nat with false
    by (symmetry; apply Nat.ltb_ge; lia).
  by destruct Hkind as [-> | ->].
Qed.

(** C8, as the code has it: the cache path of a hosting-generated tarball
    or zipball URL is the SHA-256 of the whole URL followed by
    [-{repo}-tarball] or [-{repo}-zipball]: the readable suffix is the same
    for every version of the repository, the hash in front of it is that
    of the URL, version included. *)
Theorem cache_file_path_source_archive base repo kind ref :
  segment repo → segment ref → kind = "tarball"%string ∨ kind = "zipball"%string →
  let url := base +:+ "/" +:+ repo +:+ "/" +:+ kind +:+ "/" +:+ ref in
  let path := CACHE_ROOT +:+ "/" +:+ Sha256.hexdigest (Text.encode_utf8 url)
              +:+ "-" +:+ repo +:+ "-" +:+ kind in
  cache_slot url = Some path
  ∧ (∀ w p w', cache_file_path url w = (Return p, w') → p = path)
  ∧ (∀ w, cache_ready w → cache_file_path url w = (Return path, w)).
Proof.
  intros Hrepo Href Hkind url path.
  assert (cache_slot url = Some path) as Hslot.
  { unfold cache_slot, url. by rewrite source_archive_name. }
  split; [done|]. split.
  - intros w p w' H. apply cache_file_path_Return in H as [H _]. congruence.
  - intros w Hr. by apply cache_file_path_ready.
Qed.

Lemma cache_file_path_source_archive_witness :
  cache_slot tarball_v1_0_0
  = Some (CACHE_ROOT +:+ "/" +:+ Sha256.hexdigest (Text.encode_utf8 tarball_v1_0_0)
          +:+ "-" +:+ "r" +:+ "-" +:+ "tarball").
Proof.
  apply (cache_file_path_source_archive "https://api.github.com/repos/o" "r"
           "tarball" "v1.0.0").
  - reflexivity.
  - reflexivity.
  - by left.
Defined.

(** C8 as stated fails: two tarball URLs of one repository that differ in
    the tag get two cache paths. *)
Lemma cache_file_path_differs_by_version :
  fst (cache_file_path tarball_v1_0_0 steady_world)
  = Return "/home/user/.cache/mazette/d8d99e3497ba3e9fa0bab450d4330875067f25bab24c43fed1abc197ded5999a-r-tarball"%string
  ∧ fst (cache_file_path tarball_v1_1_0 steady_world)
  = Return "/home/user/.cache/mazette/0c4b61c623b97caffbccf53a140628893cdc2ff0d368ca2b7ab694e5569ae73f-r-tarball"%string
  ∧ fst (cache_file_path tarball_v1_0_0 steady_world)
    ≠ fst (cache_file_path tarball_v1_1_0 steady_world).
Proof.
  assert (fst (cache_file_path tarball_v1_0_0 steady_world)
          = Return "/home/user/.cache/mazette/d8d99e3497ba3e9fa0bab450d4330875067f25bab24c43fed1abc197ded5999a-r-tarball"%string)
    as H0 by (vm_compute; reflexivity).
  assert (fst (cache_file_path tarball_v1_1_0 steady_world)
          = Return "/home/user/.cache/mazette/0c4b61c623b97caffbccf53a140628893cdc2ff0d368ca2b7ab694e5569ae73f-r-tarball"%string)
    as H1 by (vm_compute; reflexivity).
  split; [exact H0|]. split; [exact H1|].
  rewrite H0, H1. intros [=].
Qed.

(** ** Lock consistency gate (C6, C7) *)

Lemma assoc_get_set {A} k (v : A) d : Json.assoc_get k (Json.assoc_set k v d) = Some v.
Proof.
  induction d as [|[k' v'] d IH]; simpl.
  - by rewrite String.eqb_refl.
  - destruct (String.eqb_spec k k') as [->|Hne]; simpl.
    + by rewrite String.eqb_refl.
    + by rewrite (proj2 (String.eqb_neq k k') Hne).
Qed.

Lemma read_config_pure w o w' : read_config w = (o, w') → w' = w.
Proof.
  unfold read_config. intros H.
  destruct (config_file w) as [| |c0]; [|by inversion H..].
  destruct (pyproject_file w) as [| |config]; [by inversion H..|].
  destruct (subscript config "tool") as [tool|[]]; [|by inversion H..].
  destruct (subscript tool "mazette") as [section|[]]; by inversion H.
Qed.

Lemma read_config_set_lock_file d w config :
  read_config w = (Return config, w) →
  read_config (set_lock_file d w) = (Return config, set_lock_file d w).
Proof.
  unfold read_config. cbn [config_file pyproject_file set_lock_file]. intros H.
  destruct (config_file w) as [| |c0]; [|inversion H..]; [|done].
  destruct (pyproject_file w) as [| |c]; [inversion H..|].
  destruct (subscript c "tool") as [tool|[]]; inversion H; try done.
  destruct (subscript tool "mazette") as [section|[]]; inversion H; done.
Qed.

Lemma write_lock_Return lock_data w w1 :
  write_lock lock_data w = (Return tt, w1) →
  ∃ config d,
    read_config w = (Return config, w) ∧ lock_data = Json.VDict d
    ∧ w1 = set_lock_file
             (Holds (Json.VDict
                       (Json.assoc_set "config_checksum"
                          (Json.VStr (config_hash config)) d))) w.
Proof.
  unfold write_lock, bind, lift. intros H.
  destruct (read_config w) as [[config|e] w0] eqn:E; [|done].
  pose proof (read_config_pure _ _ _ E) as ->.
  destruct lock_data as [| | | | |d]; simpl in H; try done.
  simplify_eq. by exists config, d.
Qed.

Lemma load_lock_checked w lock config stored :
  lock_file w = Holds lock →
  read_config w = (Return config, w) →
  subscript lock "config_checksum" = Return (Json.VStr stored) →
  load_lock true w =
    (if String.eqb (config_hash config) stored then Return lock
     else Raise (LockNotLoaded LockNotInSync), w).
Proof.
  intros Hl Hc Hs.
  unfold load_lock, rethrow, bind, json_load_lock, check_lock_stale, bind, lift.
  rewrite Hl, Hc, Hs. unfold differs_from.
  by destruct (String.eqb (config_hash config) stored).
Qed.

(** C6: with the freshness check on, loading succeeds when the stored
    fingerprint is that of the declarations now loaded and fails with the
    stale-lock error when it is another; a lock written from declarations
    loads against those declarations, and fails as stale against
    declarations whose fingerprint is another. *)
Theorem load_lock_freshness w :
  (∀ lock config stored,
      lock_file w = Holds lock →
      read_config w = (Return config, w) →
      subscript lock "config_checksum" = Return (Json.VStr stored) →
      (stored = config_hash config → load_lock true w = (Return lock, w))
      ∧ (stored ≠ config_hash config →
           load_lock true w = (Raise (LockNotLoaded LockNotInSync), w)))
  ∧ (∀ lock_data w1,
      write_lock lock_data w = (Return tt, w1) →
      (∃ lock, load_lock true w1 = (Return lock, w1))
      ∧ (∀ config config' w2,
           read_config w = (Return config, w) →
           lock_file w2 = lock_file w1 →
           read_config w2 = (Return config', w2) →
           config_hash config' ≠ config_hash config →
           load_lock true w2 = (Raise (LockNotLoaded LockNotInSync), w2))).
Proof.
  split.
  - intros lock config stored Hl Hc Hs.
    rewrite (load_lock_checked _ _ _ _ Hl Hc Hs). split.
    + intros ->. by rewrite String.eqb_refl.
    + intros Hne. by rewrite (proj2 (String.eqb_neq _ _)).
  - intros lock_data w1 H.
    destruct (write_lock_Return _ _ _ H) as (config & d & Hc & -> & ->).
    set (stamped := Json.VDict _).
    assert (subscript stamped "config_checksum"
            = Return (Json.VStr (config_hash config))) as Hs.
    { unfold stamped, subscript. by rewrite assoc_get_set. }
    split.
    + exists stamped.
      erewrite load_lock_checked; [|reflexivity| |exact Hs].
      * by rewrite String.eqb_refl.
      * by apply read_config_set_lock_file.
    + intros config0 config' w2 Hc0 Hl2 Hc2 Hne.
      assert (config0 = config) as -> by congruence.
      erewrite load_lock_checked; [|by rewrite Hl2|exact Hc2|exact Hs].
      by rewrite (proj2 (String.eqb_neq _ _)).
Qed.

Lemma load_lock_freshness_witness :
  let w := world_with_config declarations Absent in
  let w1 := snd (write_lock empty_lock w) in
  let w2 := set_config_file (Holds declarations_mutated) w1 in
  (∃ lock, load_lock true w1 = (Return lock, w1))
  ∧ load_lock true w2 = (Raise (LockNotLoaded LockNotInSync), w2).
Proof.
  intros w w1 w2.
  destruct (proj2 (load_lock_freshness w) empty_lock w1) as [Hsame Hother].
  - vm_compute. reflexivity.
  - split; [exact Hsame|].
    apply (Hother declarations declarations_mutated w2).
    + reflexivity.
    + reflexivity.
    + reflexivity.
    + vm_compute. intros [=].
Defined.

(** C7, as the code has it: the fingerprint [write_lock] stamps is
    [config_hash] of the declarations [read_config] returns, whatever the
    lock data and the rest of the world are; it is the SHA-256 of
    [json.dumps] of the mapping in the order of its keys. *)
Theorem write_lock_fingerprint lock_data w w1 config :
  read_config w = (Return config, w) →
  write_lock lock_data w = (Return tt, w1) →
  ∃ lock,
    lock_file w1 = Holds lock
    ∧ subscript lock "config_checksum"
      = Return (Json.VStr (Sha256.hexdigest (Text.encode_utf8 (Json.dumps config)))).
Proof.
  intros Hc H.
  destruct (write_lock_Return _ _ _ H) as (config0 & d & Hc0 & -> & ->).
  assert (config0 = config) as -> by congruence.
  eexists. split; [reflexivity|]. unfold subscript. by rewrite assoc_get_set.
Qed.

Lemma write_lock_fingerprint_witness :
  let w := world_with_config declarations Absent in
  ∃ lock,
    lock_file (snd (write_lock empty_lock w)) = Holds lock
    ∧ subscript lock "config_checksum"
      = Return (Json.VStr (Sha256.hexdigest (Text.encode_utf8 (Json.dumps declarations)))).
Proof.
  intros w.
  apply (write_lock_fingerprint empty_lock w (snd (write_lock empty_lock w)) declarations).
  - reflexivity.
  - vm_compute. reflexivity.
Defined.

(** C7 as stated fails: two mappings with the same entries, their keys in
    another order, have two fingerprints, and a lock written from the one
    is stale for the other. *)
Lemma config_hash_depends_on_key_order :
  match declarations, declarations_reordered with
  | Json.VDict d, Json.VDict d' => d ≡ₚ d'
  | _, _ => False
  end
  ∧ config_hash declarations ≠ config_hash declarations_reordered
  ∧ (let w1 := snd (write_lock empty_lock (world_with_config declarations Absent)) in
     let w2 := set_config_file (Holds declarations_reordered) w1 in
     fst (load_lock true w1) = Return
       (Json.VDict [("assets", Json.VDict []);
                    ("config_checksum", Json.VStr (config_hash declarations))])
     ∧ fst (load_lock true w2) = Raise (LockNotLoaded LockNotInSync)).
Proof.
  split; [apply Permutation_swap|]. split.
  - vm_compute. intros [=].
  - split; vm_compute; reflexivity.
Qed.

(** ** Version strings (C9) *)

Lemma lstrip_leading_vs k t :
  Text.lstrip "v" (leading_vs k +:+ t) = Text.lstrip "v" t.
Proof.
  induction k as [|k IH]; [done|].
  change (leading_vs (S k) +:+ t) with (String "v" (leading_vs k +:+ t)).
  cbn [Text.lstrip]. by rewrite Ascii.eqb_refl.
Qed.

Lemma lstrip_no_leading_v tag : Text.startswith "v" (Text.lstrip "v" tag) = false.
Proof.
  induction tag as [|c tag IH]; [done|]. cbn [Text.lstrip].
  destruct (Ascii.eqb_spec c "v") as [->|Hne]; [done|]. cbn [Text.startswith].
  by destruct (Ascii.eqb_spec "v" c) as [<-|_].
Qed.

Lemma lstrip_decompose tag : ∃ k, tag = leading_vs k +:+ Text.lstrip "v" tag.
Proof.
  induction tag as [|c tag [k IH]]; [by exists O|]. cbn [Text.lstrip].
  destruct (Ascii.eqb_spec c "v") as [->|Hne].
  - exists (S k).
    change (leading_vs (S k) +:+ Text.lstrip "v" tag)
      with (String "v" (leading_vs k +:+ Text.lstrip "v" tag)).
    by rewrite <- IH.
  - by exists O.
Qed.

(** C9, as the code has it: the version string is the tag without its
    leading v's, all of them ([lstrip]).  For a tag that is [k] times
    the letter v before a text that does not begin with a v, whatever [k]
    is, the loop of [get_latest_release] hands that text to the parser,
    and what it parses to is what is matched against the range;
    [get_download_url] hands that text to [str.format] as the version.
    Every tag is of this form, in one way only. *)
Theorem version_string_lstrip k core :
  Text.startswith "v" core = false →
  let tag := leading_vs k +:+ core in
  (∀ V (parse : string → option V) vmatch rel rest range,
     collect_matching V parse vmatch (with_tag tag rel :: rest) range
     = match parse core with
       | None => collect_matching V parse vmatch rest range
       | Some version =>
           if prerelease rel then collect_matching V parse vmatch rest range
           else match vmatch version range with
                | None => Raise ValueError
                | Some false => collect_matching V parse vmatch rest range
                | Some true =>
                    match collect_matching V parse vmatch rest range with
                    | Return matching => Return ((with_tag tag rel, version) :: matching)
                    | Raise e => Raise e
                    end
                end
       end)
  ∧ (∀ format rel pattern,
       pattern ≠ "!tarball"%string → pattern ≠ "!zipball"%string →
       get_download_url format (with_tag tag rel) pattern
       = match format pattern core with
         | Return expected_name =>
             match find_asset expected_name (assets rel) with
             | Some url => Return url
             | None => Raise (AssetNotFound pattern)
             end
         | Raise e => Raise e
         end)
  ∧ (∀ k' core', Text.startswith "v" core' = false →
       leading_vs k' +:+ core' = tag → k' = k ∧ core' = core)
  ∧ (∀ any_tag, ∃ k' core', any_tag = leading_vs k' +:+ core'
                             ∧ Text.startswith "v" core' = false).
Proof.
  intros Hcore tag.
  assert (Text.lstrip "v" core = core) as Hself.
  { destruct core as [|c rest]; [done|]. cbn [Text.startswith] in Hcore.
    cbn [Text.lstrip]. destruct (Ascii.eqb_spec c "v") as [->|_]; [done|done]. }
  subst tag.
  assert (Text.lstrip "v" (leading_vs k +:+ core) = core) as Hstrip.
  { by rewrite lstrip_leading_vs. }
  split; [|split; [|split]].
  - intros V parse vmatch rel rest range.
    cbn [collect_matching with_tag tag_name prerelease default]. unfold id.
    by rewrite Hstrip.
  - intros format rel pattern Ht Hz. unfold get_download_url.
    rewrite (proj2 (String.eqb_neq _ _) Ht), (proj2 (String.eqb_neq _ _) Hz).
    cbn [with_tag tag_name assets]. by rewrite Hstrip.
  - intros k' core' Hcore' Heq.
    assert (Text.lstrip "v" core' = core') as Hself'.
    { destruct core' as [|c rest]; [done|]. cbn [Text.startswith] in Hcore'.
      cbn [Text.lstrip]. destruct (Ascii.eqb_spec c "v") as [->|_]; [done|done]. }
    assert (core' = core) as ->.
    { rewrite <- Hstrip, <- Heq, lstrip_leading_vs. done. }
    split; [|done].
    assert (String.length (leading_vs k' +:+ core)
            = String.length (leading_vs k +:+ core)) as Hlen by by rewrite Heq.
    rewrite !string_app_length in Hlen.
    assert (∀ n, String.length (leading_vs n) = n) as Hn.
    { induction n as [|n IH]; [done|]. cbn. by rewrite IH. }
    rewrite !Hn in Hlen. lia.
  - intros any_tag. destruct (lstrip_decompose any_tag) as [k' Hk'].
    exists k', (Text.lstrip "v" any_tag). split; [done|]. apply lstrip_no_leading_v.
Qed.

Lemma version_string_lstrip_witness :
  collect_matching CoreSemver.VersionInfo CoreSemver.parse CoreSemver.vmatch
    [with_tag "vv1.2.0" double_v_release] ">=1.0.0"
  = Return [(with_tag "vv1.2.0" double_v_release, (1, 2, 0)%N)].
Proof.
  rewrite (proj1 (version_string_lstrip 2 "1.2.0" eq_refl)).
  vm_compute. reflexivity.
Defined.

(** C9 as stated fails: of a tag with two leading v's both are stripped,
    so the asset named after the bare version is the one found, not the
    one named after the tag less one v. *)
Lemma version_string_strips_every_v :
  Text.lstrip "v" "vv1.2.0" = "1.2.0"%string
  ∧ Text.removeprefix "v" "vv1.2.0" = "v1.2.0"%string
  ∧ simple_format "tool-{version}" "1.2.0" = Return "tool-1.2.0"%string
  ∧ get_download_url simple_format double_v_release "tool-{version}"
    = Return "https://example.org/a"%string
  ∧ find_asset "tool-v1.2.0" (assets double_v_release) = Some "https://example.org/b"%string
  ∧ collect_matching CoreSemver.VersionInfo CoreSemver.parse CoreSemver.vmatch
      [double_v_release] ">=1.0.0"
    = Return [(double_v_release, (1, 2, 0)%N)]
  ∧ CoreSemver.parse (Text.removeprefix "v" "vv1.2.0") = None.
Proof. repeat split; vm_compute; reflexivity. Qed.

(** ** Version resolver (C2) *)

Section ResolverProperties.

Context {V : Type}.
Variable parse : string → option V.
Variable vmatch : V → string → option bool.
Variable compare : V → V → comparison.

(** [compare] is the comparison of a total preorder. *)
Hypothesis compare_antisym : ∀ a b, compare a b = CompOpp (compare b a).
Hypothesis compare_trans :
  ∀ a b c, compare a b ≠ Gt → compare b c ≠ Gt → compare a c ≠ Gt.

Lemma collect_matching_candidates releases range :
  (∀ v, vmatch v range ≠ None) →
  collect_matching V parse vmatch releases range
  = Return (candidates parse vmatch releases range).
Proof.
  intros Hok. unfold candidates.
  induction releases as [|rel rest IH]; [done|].
  cbn [collect_matching omap list_omap]. unfold is_candidate at 1.
  destruct (parse _) as [v|]; [|exact IH].
  destruct (prerelease rel); [exact IH|]. cbn [negb andb].
  specialize (Hok v). rewrite IH.
  destruct (vmatch v range) as [[]|]; [| |done].
  - by rewrite bool_decide_eq_true_2.
  - by rewrite bool_decide_eq_false_2.
Qed.

Lemma candidates_spec releases range rel v :
  (rel, v) ∈ candidates parse vmatch releases range ↔
  rel ∈ releases
  ∧ parse (Text.lstrip "v" (default EmptyString (tag_name rel))) = Some v
  ∧ prerelease rel = false
  ∧ vmatch v range = Some true.
Proof.
  unfold candidates. rewrite list_elem_of_omap. split.
  - intros (r & Hin & Hc). unfold is_candidate in Hc.
    destruct (parse _) as [v0|] eqn:Ep; [|done].
    destruct (prerelease r) eqn:Epre; [done|]. cbn [negb andb] in Hc.
    destruct (bool_decide_reflect (vmatch v0 range = Some true)); [|done].
    by simplify_eq.
  - intros (Hin & Hp & Hpre & Hm). exists rel. split; [done|].
    unfold is_candidate. rewrite Hp, Hpre. cbn [negb andb].
    by rewrite bool_decide_eq_true_2.
Qed.

Lemma compare_refl_not_Gt a : compare a a ≠ Gt.
Proof. pose proof (compare_antisym a a). by destruct (compare a a). Qed.

Lemma max_from_spec best rest :
  max_from V compare best rest ∈ best :: rest
  ∧ ∀ c, c ∈ best :: rest →
         compare (snd c) (snd (max_from V compare best rest)) ≠ Gt.
Proof.
  revert best. induction rest as [|x rest IH]; intros best.
  - cbn [max_from]. split; [by left|].
    intros c ->%list_elem_of_singleton. apply compare_refl_not_Gt.
  - cbn [max_from]. destruct (compare (snd x) (snd best)) eqn:E.
    + destruct (IH best) as [Hin Hmax]. split.
      * apply elem_of_cons in Hin as [->|Hin]; [by left|by do 2 right].
      * intros c [->|[->|Hc]%elem_of_cons]%elem_of_cons.
        -- apply Hmax. by left.
        -- eapply compare_trans; [|apply Hmax; by left]. by rewrite E.
        -- apply Hmax. by right.
    + destruct (IH best) as [Hin Hmax]. split.
      * apply elem_of_cons in Hin as [->|Hin]; [by left|by do 2 right].
      * intros c [->|[->|Hc]%elem_of_cons]%elem_of_cons.
        -- apply Hmax. by left.
        -- eapply compare_trans; [|apply Hmax; by left]. by rewrite E.
        -- apply Hmax. by right.
    + destruct (IH x) as [Hin Hmax]. split.
      * by right.
      * intros c [->|[->|Hc]%elem_of_cons]%elem_of_cons.
        -- eapply compare_trans; [|apply Hmax; by left].
           rewrite compare_antisym, E. done.
        -- apply Hmax. by left.
        -- apply Hmax. by right.
Qed.

Lemma collect_matching_cases releases range :
  (collect_matching V parse vmatch releases range = Raise ValueError
   ∧ ∃ rel v, rel ∈ releases
              ∧ parse (Text.lstrip "v" (default EmptyString (tag_name rel))) = Some v
              ∧ prerelease rel = false ∧ vmatch v range = None)
  ∨ (collect_matching V parse vmatch releases range
     = Return (candidates parse vmatch releases range)
     ∧ ∀ rel v, rel ∈ releases →
                parse (Text.lstrip "v" (default EmptyString (tag_name rel))) = Some v →
                prerelease rel = false → vmatch v range ≠ None).
Proof.
  unfold candidates. induction releases as [|rel rest IH].
  - right. split; [done|]. by intros rel v ?%elem_of_nil.
  - cbn [collect_matching omap list_omap]. unfold is_candidate at 1 3.
    destruct (parse (Text.lstrip "v" (default EmptyString (tag_name rel))))
      as [v|] eqn:Ep.
    + destruct (prerelease rel) eqn:Epre; cbn [negb andb].
      * destruct IH as [(E & r & u & Hin & H)|(E & Hok)].
        -- left. split; [done|]. exists r, u. split; [by right|done].
        -- right. split; [done|]. intros r u [->|Hin]%elem_of_cons; [congruence|].
           by apply Hok.
      * destruct (vmatch v range) as [[]|] eqn:Em.
        -- rewrite bool_decide_eq_true_2 by done.
           destruct IH as [(E & r & u & Hin & H)|(E & Hok)].
           ++ left. rewrite E. split; [done|]. exists r, u. split; [by right|done].
           ++ right. rewrite E. split; [done|].
              intros r u [->|Hin]%elem_of_cons; [congruence|]. by apply Hok.
        -- rewrite bool_decide_eq_false_2 by done.
           destruct IH as [(E & r & u & Hin & H)|(E & Hok)].
           ++ left. split; [done|]. exists r, u. split; [by right|done].
           ++ right. split; [done|].
              intros r u [->|Hin]%elem_of_cons; [congruence|]. by apply Hok.
        -- left. split; [done|]. exists rel, v. split; [by left|done].
    + destruct IH as [(E & r & u & Hin & H)|(E & Hok)].
      * left. split; [done|]. exists r, u. split; [by right|done].
      * right. split; [done|]. intros r u [->|Hin]%elem_of_cons; [congruence|].
        by apply Hok.
Qed.

(** C2, as the code has it.  On the decoded releases of a 200 reply the
    resolver fails with the ValueError of [match] exactly when [match]
    does not accept the range for the version of some release whose
    v-stripped tag parses and that is not a prerelease.  When it accepts
    it for all of them, the resolver returns a candidate whose version
    no candidate's version exceeds, the candidates being the releases
    whose v-stripped tag parses, that are not prereleases and whose
    version matches the range, and it fails with the no-matching-release
    error exactly when there is no candidate.  Tags that do not parse and
    prereleases only drop out. *)
Theorem get_latest_release_maximal repo range w releases :
  github w repo = ApiResponse 200 releases →
  let cands := candidates parse vmatch releases range in
  let run := get_latest_release V parse vmatch compare repo range w in
  let refused :=
    ∃ rel v, rel ∈ releases
             ∧ parse (Text.lstrip "v" (default EmptyString (tag_name rel))) = Some v
             ∧ prerelease rel = false ∧ vmatch v range = None in
  (refused ↔ fst run = Raise ValueError)
  ∧ (¬ refused →
       (cands = [] ↔ fst run = Raise (NoReleasesMatch range repo))
       ∧ (cands ≠ [] →
            ∃ rel v, fst run = Return rel ∧ (rel, v) ∈ cands
                     ∧ ∀ c, c ∈ cands → compare (snd c) v ≠ Gt))
  ∧ (∀ rel v, (rel, v) ∈ cands ↔
       rel ∈ releases
       ∧ parse (Text.lstrip "v" (default EmptyString (tag_name rel))) = Some v
       ∧ prerelease rel = false
       ∧ vmatch v range = Some true)
  ∧ snd run = add_event (Requested (releases_url repo)) w.
Proof.
  intros Hapi cands run refused.
  assert (run = match collect_matching V parse vmatch releases range with
                | Raise e => (Raise e, add_event (Requested (releases_url repo)) w)
                | Return [] => (Raise (NoReleasesMatch range repo),
                                add_event (Requested (releases_url repo)) w)
                | Return (first :: rest) =>
                    (Return (fst (max_from V compare first rest)),
                     add_event (Requested (releases_url repo)) w)
                end) as Hrun.
  { unfold run, get_latest_release, bind, fetch_releases, lift. rewrite Hapi.
    cbn. by destruct (collect_matching V parse vmatch releases range) as [[|? ?]|]. }
  destruct (collect_matching_cases releases range) as [[E Hbad]|[E Hok]];
    rewrite E in Hrun; fold cands in Hrun.
  - split; [|split; [|split]].
    + rewrite Hrun. done.
    + intros Hno. by destruct Hno.
    + intros rel v. apply candidates_spec.
    + by rewrite Hrun.
  - assert (¬ refused) as Hno.
    { intros (rel & v & Hin & Hp & Hpre & Hm). by apply (Hok rel v). }
    split; [|split; [|split]].
    + split; [done|]. rewrite Hrun. by destruct cands.
    + intros _. split.
      * rewrite Hrun. destruct cands; split; done.
      * intros Hne. rewrite Hrun. destruct cands as [|first rest]; [done|].
        destruct (max_from_spec first rest) as [Hin Hmax].
        destruct (max_from V compare first rest) as [rel v] eqn:Emax.
        exists rel, v. split; [done|]. split; [done|]. exact Hmax.
    + intros rel v. apply candidates_spec.
    + rewrite Hrun. by destruct cands.
Qed.

End ResolverProperties.

Lemma core_compare_le v w :
  CoreSemver.compare v w ≠ Gt ↔
  let '(a, b, c) := v in
  let '(x, y, z) := w in
  (a < x ∨ (a = x ∧ (b < y ∨ (b = y ∧ c ≤ z))))%N.
Proof.
  destruct v as [[a b] c], w as [[x y] z]. unfold CoreSemver.compare.
  destruct (N.compare_spec a x) as [Ha|Ha|Ha], (N.compare_spec b y) as [Hb|Hb|Hb],
    (N.compare_spec c z) as [Hc|Hc|Hc];
    split; intros Hle; try done; try lia.
Qed.

Lemma core_compare_antisym v w :
  CoreSemver.compare v w = CompOpp (CoreSemver.compare w v).
Proof.
  destruct v as [[a b] c], w as [[x y] z]. unfold CoreSemver.compare.
  rewrite (N.compare_antisym a x), (N.compare_antisym b y), (N.compare_antisym c z).
  by destruct (a ?= x)%N, (b ?= y)%N, (c ?= z)%N.
Qed.

Lemma core_compare_trans u v w :
  CoreSemver.compare u v ≠ Gt → CoreSemver.compare v w ≠ Gt →
  CoreSemver.compare u w ≠ Gt.
Proof.
  rewrite !core_compare_le. destruct u as [[a b] c], v as [[x y] z], w as [[p q] r].
  lia.
Qed.

Lemma core_vmatch_ge v : CoreSemver.vmatch v ">=1.0.0" ≠ None.
Proof. destruct v as [[a b] c]. by cbn. Qed.

Lemma get_latest_release_maximal_witness :
  let cands := candidates CoreSemver.parse CoreSemver.vmatch tool_releases ">=1.0.0" in
  let run := get_latest_release CoreSemver.VersionInfo CoreSemver.parse CoreSemver.vmatch
               CoreSemver.compare "o/r" ">=1.0.0" release_world in
  ∃ rel v, fst run = Return rel ∧ (rel, v) ∈ cands
           ∧ ∀ c, c ∈ cands → CoreSemver.compare (snd c) v ≠ Gt.
Proof.
  intros cands run.
  apply (get_latest_release_maximal CoreSemver.parse CoreSemver.vmatch CoreSemver.compare
           core_compare_antisym core_compare_trans "o/r" ">=1.0.0" release_world
           tool_releases).
  - reflexivity.
  - intros (rel & v & _ & _ & _ & Hm). by apply (core_vmatch_ge v).
  - vm_compute. intros [=].
Defined.

(** C2 as stated fails for a range expression [match] does not accept:
    no release matches it, so the candidate set is empty, and the
    resolver fails with the ValueError of [match], not with the
    no-matching-release error. *)
Lemma get_latest_release_rejected_range :
  let run := get_latest_release CoreSemver.VersionInfo CoreSemver.parse CoreSemver.vmatch
               CoreSemver.compare "o/r" "^1.0.0" release_world in
  candidates CoreSemver.parse CoreSemver.vmatch tool_releases "^1.0.0" = []
  ∧ github release_world "o/r" = ApiResponse 200 tool_releases
  ∧ fst run = Raise ValueError
  ∧ fst run ≠ Raise (NoReleasesMatch "^1.0.0" "o/r").
Proof.
  intros run. split; [vm_compute; reflexivity|]. split; [reflexivity|].
  assert (fst run = Raise ValueError) as E by (vm_compute; reflexivity).
  split; [exact E|]. rewrite E. intros [=].
Qed.

(** ** Archive member selection (C3) *)

Section ExtractorProperties.

Variable fnmatch : string → string → bool.

Lemma fnmatch_filter_spec files glob m :
  m ∈ fnmatch_filter fnmatch files glob ↔ m ∈ files ∧ fnmatch m glob = true.
Proof.
  unfold fnmatch_filter. rewrite list_elem_of_filter, elem_of_elements. tauto.
Qed.

Lemma fnmatch_filter_NoDup files glob : NoDup (fnmatch_filter fnmatch files glob).
Proof. unfold fnmatch_filter. apply NoDup_filter, NoDup_elements. Qed.

Lemma select_by_glob_spec files globs m :
  m ∈ select_by_glob fnmatch files globs ↔
  m ∈ files ∧ ∃ g, g ∈ globs ∧ fnmatch m g = true.
Proof.
  revert files. induction globs as [|glob rest IH]; intros files; cbn [select_by_glob].
  - split; [by intros ?%elem_of_nil|]. by intros (_ & g & ?%elem_of_nil & _).
  - rewrite elem_of_app, fnmatch_filter_spec, IH. split.
    + intros [[Hin Hm]|(Hin & g & Hg & Hm)].
      * split; [done|]. exists glob. split; [by left|done].
      * split; [set_solver|]. exists g. split; [by right|done].
    + intros (Hin & g & Hg & Hm).
      destruct (fnmatch m glob) eqn:E; [by left|]. right.
      apply elem_of_cons in Hg as [->|Hg]; [congruence|].
      split; [|by exists g].
      apply elem_of_difference. split; [done|].
      rewrite elem_of_list_to_set, fnmatch_filter_spec. intros [_ ?]. congruence.
Qed.

Lemma select_by_glob_NoDup files globs : NoDup (select_by_glob fnmatch files globs).
Proof.
  revert files. induction globs as [|glob rest IH]; intros files; cbn [select_by_glob].
  - constructor.
  - apply NoDup_app. split; [apply fnmatch_filter_NoDup|]. split; [|apply IH].
    intros m Hm [Hin _]%select_by_glob_spec.
    apply elem_of_difference in Hin as [_ Hout]. apply Hout.
    by apply elem_of_list_to_set.
Qed.

Lemma NoDup_within_length (l k : list string) :
  NoDup l → (∀ x, x ∈ l → x ∈ k) → (length l ≤ length k)%nat.
Proof. intros Hl Hsub. by apply submseteq_length, NoDup_submseteq. Qed.

Lemma select_by_glob_length files globs :
  (length (select_by_glob fnmatch (list_to_set files) globs) ≤ length files)%nat.
Proof.
  apply NoDup_within_length; [apply select_by_glob_NoDup|].
  intros m [Hin _]%select_by_glob_spec. by apply elem_of_list_to_set in Hin.
Qed.

(** The outer loop, from a point where the inner list is used up, stops
    when no glob to come matches a remaining name, and otherwise yields
    the first name of the selection and keeps the rest of it. *)
Lemma next_glob_spec files matched globs :
  (select_by_glob fnmatch files globs = []
   ∧ next_glob fnmatch files matched globs
     = (if matched then StopIteration else Throw GlobsDidNotMatch,
        FilterGen files matched [] [] true))
  ∨ (∃ m pending globs',
       next_glob fnmatch files matched globs
       = (Yield m, FilterGen (files ∖ {[m]}) true pending globs' false)
       ∧ select_by_glob fnmatch files globs
         = m :: pending
             ++ select_by_glob fnmatch (files ∖ {[m]} ∖ list_to_set pending) globs'
       ∧ NoDup pending
       ∧ ∀ x, x ∈ pending → x ∈ files ∖ {[m]}).
Proof.
  induction globs as [|glob rest IH]; cbn [next_glob select_by_glob]; [by left|].
  pose proof (fnmatch_filter_NoDup files glob) as Hnd.
  pose proof (fnmatch_filter_spec files glob) as Hspec.
  destruct (fnmatch_filter fnmatch files glob) as [|m pending].
  - replace (files ∖ list_to_set []) with files by set_solver. exact IH.
  - right. exists m, pending, rest.
    apply NoDup_cons in Hnd as [Hm Hnd].
    assert (m ∈ files) as Hin by (apply Hspec; by left).
    unfold yield_member. rewrite decide_True by done.
    split; [done|]. split; [|split; [done|]].
    + cbn [app]. do 2 f_equal. f_equal. set_solver.
    + intros x Hx. apply elem_of_difference. split.
      * apply Hspec. by right.
      * intros ->%elem_of_singleton. done.
Qed.

Lemma consume_spec fuel files matched pending globs :
  NoDup pending → (∀ x, x ∈ pending → x ∈ files) →
  let rest := pending
              ++ select_by_glob fnmatch (files ∖ list_to_set pending) globs in
  (length rest < fuel)%nat →
  consume fnmatch fuel (FilterGen files matched pending globs false)
  = (rest, match rest with
           | [] => if matched then Exhausted else Failed GlobsDidNotMatch
           | _ :: _ => Exhausted
           end).
Proof.
  revert files matched pending globs.
  induction fuel as [|fuel IH]; intros files matched pending globs Hnd Hsub rest Hlen;
    [lia|].
  cbn [consume]. unfold resume. cbn [gen_done gen_pending gen_files gen_matched gen_globs].
  destruct pending as [|m pending].
  - unfold rest in *. clear rest. cbn [app] in *.
    replace (files ∖ list_to_set []) with files in * by set_solver.
    destruct (next_glob_spec files matched globs)
      as [[Hnil ->]|(m & pending & globs' & -> & Hsel & Hnd' & Hsub')].
    + rewrite Hnil. by destruct matched.
    + rewrite Hsel in *. cbn [length] in Hlen.
      rewrite IH; [|done| |].
      * f_equal. destruct (pending ++ select_by_glob fnmatch _ globs'); reflexivity.
      * intros x Hx. by apply Hsub'.
      * cbn zeta. lia.
  - apply NoDup_cons in Hnd as [Hm Hnd].
    assert (m ∈ files) as Hin by (apply Hsub; by left).
    unfold yield_member. rewrite decide_True by done.
    assert (files ∖ list_to_set (m :: pending)
            = files ∖ {[m]} ∖ list_to_set pending) as Hset by set_solver.
    unfold rest in *. clear rest. rewrite Hset in *. cbn [app length] in *.
    rewrite IH; [|done| |].
    + f_equal. destruct (pending ++ select_by_glob fnmatch _ globs); reflexivity.
    + intros x Hx. apply elem_of_difference. split; [apply Hsub; by right|].
      intros ->%elem_of_singleton. done.
    + cbn zeta. lia.
Qed.

(** C3: a consumer of [filter_files files globs] receives the names of
    [select_by_glob]: the globs in their order, each with the names it
    matches among those no earlier glob has taken.  Each name is removed
    from the candidate set at the moment it is yielded, so no name comes
    twice, and a name comes exactly when it is in the archive and some
    glob matches it.  The generator raises the no-match error exactly
    when it has yielded nothing, and ends normally otherwise. *)
Theorem filter_files_selection files globs :
  let ms := select_by_glob fnmatch (list_to_set files) globs in
  consume fnmatch (S (length files)) (filter_files files globs)
  = (ms, match ms with [] => Failed GlobsDidNotMatch | _ :: _ => Exhausted end)
  ∧ NoDup ms
  ∧ (∀ m, m ∈ ms ↔ m ∈ files ∧ ∃ g, g ∈ globs ∧ fnmatch m g = true)
  ∧ (snd (consume fnmatch (S (length files)) (filter_files files globs))
     = Failed GlobsDidNotMatch ↔ ms = [])
  ∧ (∀ g m g', resume fnmatch g = (Yield m, g') →
       m ∈ gen_files g ∧ gen_files g' = gen_files g ∖ {[m]}).
Proof.
  intros ms.
  assert (consume fnmatch (S (length files)) (filter_files files globs)
          = (ms, match ms with [] => Failed GlobsDidNotMatch | _ :: _ => Exhausted end))
    as Hrun.
  { unfold filter_files.
    pose proof (consume_spec (S (length files)) (list_to_set files) false [] globs) as H.
    cbn [app] in H. replace (list_to_set files ∖ list_to_set []) with
      (list_to_set files : gset string) in H by set_solver.
    apply H; [constructor|by intros x ?%elem_of_nil|].
    pose proof (select_by_glob_length files globs). lia. }
  split; [exact Hrun|]. split; [apply select_by_glob_NoDup|]. split.
  { intros m. unfold ms. rewrite select_by_glob_spec.
    by rewrite elem_of_list_to_set. }
  split.
  { rewrite Hrun. cbn [snd]. by destruct ms. }
  intros g m g'. unfold resume.
  destruct (gen_done g); [done|].
  assert (∀ files m pending globs g',
            yield_member files m pending globs = (Yield m, g') →
            m ∈ files ∧ gen_files g' = files ∖ {[m]}) as Hyield.
  { intros fs0 m0 p0 gl0 g0. unfold yield_member.
    destruct (decide (m0 ∈ fs0)); [|done]. by intros [= <-]. }
  destruct (gen_pending g) as [|m0 pending].
  - intros H.
    destruct (next_glob_spec (gen_files g) (gen_matched g) (gen_globs g))
      as [[_ E]|(m1 & pending & globs' & E & _ & _ & Hsub)]; rewrite E in H.
    + by destruct (gen_matched g).
    + simplify_eq. cbn [gen_files]. split; [|done].
      clear -E. revert E. generalize (gen_matched g).
      induction (gen_globs g) as [|glob rest IH]; intros matched E; cbn in E.
      * by destruct matched.
      * pose proof (fnmatch_filter_spec (gen_files g) glob) as Hspec.
        destruct (fnmatch_filter fnmatch (gen_files g) glob) as [|m2 p2];
          [by eapply IH|].
        unfold yield_member in E. destruct (decide (m2 ∈ gen_files g)); [|done].
        by simplify_eq.
  - intros H. unfold yield_member in H.
    destruct (decide (m0 ∈ gen_files g)); [|done]. by simplify_eq.
Qed.

End ExtractorProperties.

(** ** Installer (C10) *)

(** C10 fails on the code for entries that extract: [install_asset] calls
    [chmod_exec] only after a plain copy.  Here the entry has its
    executable flag set and extracts a tar.gz whose one member has mode
    0o644; the install succeeds and the extracted file has none of the
    execute bits, while the same entry without extraction gets all three. *)
Theorem install_asset_extract_ignores_executable :
  let install := install_asset simple_fnmatch archive_members (fun _ => None)
                   "tool" "linux/amd64" in
  let extracted :=
    install [("linux/amd64"%string, archive_entry true (Some extract_everything))]
      archive_world in
  let copied := install [("all"%string, archive_entry true None)] archive_world in
  fst extracted = Return tt
  ∧ fs (snd extracted) !! "out/tool/bin/tool"%string = Some (File "ELF" 420)
  ∧ Z.land 420 exec_bits = 0
  ∧ fst copied = Return tt
  ∧ fs (snd copied) !! "out/tool"%string = Some (File "TARBYTES" (Z.lor 420 exec_bits))
  ∧ Z.land (Z.lor 420 exec_bits) exec_bits = exec_bits.
Proof. repeat split; vm_compute; reflexivity. Qed.

(* ===================================================================== *)
(** * Further properties of the cache *)
(* ===================================================================== *)

(** [calc_checksum] reads the stream in chunks and feeds each to the hash
    object; what it returns is the SHA-256 of the whole stream. *)
Theorem calc_checksum_whole_stream data :
  calc_checksum data = Sha256.hexdigest data.
Proof.
  unfold calc_checksum. rewrite read_chunks_all; [done| |lia].
  by vm_compute.
Qed.

(** A download that goes through leaves the whole body at the cache path
    and, beside it, a sidecar holding the SHA-256 of that body; the status
    was no 4xx or 5xx and the stream was not cut. *)
Theorem download_to_cache_stores_checksum url w p w1 :
  download_to_cache url w = (Return p, w1) →
  fs w !! p = None →
  ∃ r m,
    remote w url = Responds r
    ∧ (400 <=? status_code r) && (status_code r <? 600) = false
    ∧ cut r = None
    ∧ fs w1 !! p = Some (File (body r) default_mode)
    ∧ fs w1 !! sidecar p = Some (File (Sha256.hexdigest (body r)) m)
    ∧ log w1 = log w ++ [Requested url; Hashed p].
Proof.
  intros H Hnone.
  destruct (cache_file_path url w) as [[p0|e] w0] eqn:E.
  - destruct (cache_file_path_Return _ _ _ _ E)
      as (Hslot & Hready & _ & _ & _ & _ & _ & Hlog & _ & Hout).
    destruct (cache_slot_outside _ _ Hslot) as [Hp _].
    assert (fs w0 !! p0 = fs w !! p0) as Hsame by (by apply Hout).
    destruct (fs w0 !! p0) as [x|] eqn:Ex.
    + rewrite (download_to_cache_hit _ _ _ _ E) in H by (by rewrite Ex).
      simplify_eq. congruence.
    + rewrite (download_to_cache_miss _ _ _ _ E Ex) in H.
      destruct (remote w url) as [|r]; [done|].
      destruct ((400 <=? status_code r) && (status_code r <? 600)) eqn:Es; [done|].
      destruct (cut r) as [k|] eqn:Ek; [done|].
      assert (p = p0 ∧ w1 = downloaded url p0 r w0) as [-> ->].
      { by destruct (fs w0 !! sidecar p0) as [[? ?|]|]; simplify_eq. }
      destruct (downloaded_facts url p0 r w0) as (Hblob & [m Hside] & Hl & _).
      exists r, m. rewrite Hl, Hlog. done.
  - unfold download_to_cache, get_cached_url in H.
    by rewrite (bind_Raise _ _ _ _ _ (bind_Raise _ _ _ _ _ E)) in H.
Qed.

Lemma download_to_cache_stores_checksum_witness :
  ∃ r m,
    remote steady_world flaky_url = Responds r
    ∧ (400 <=? status_code r) && (status_code r <? 600) = false
    ∧ cut r = None
    ∧ fs (snd (download_to_cache flaky_url steady_world)) !! flaky_path
      = Some (File (body r) default_mode)
    ∧ fs (snd (download_to_cache flaky_url steady_world)) !! sidecar flaky_path
      = Some (File (Sha256.hexdigest (body r)) m)
    ∧ log (snd (download_to_cache flaky_url steady_world))
      = log steady_world ++ [Requested flaky_url; Hashed flaky_path].
Proof.
  apply (download_to_cache_stores_checksum flaky_url steady_world flaky_path).
  - vm_compute. reflexivity.
  - reflexivity.
Defined.








Lemma hash_asset_fresh url w p c w1 :
  cache_slot url = Some p →
  fs w !! sidecar p = None →
  hash_asset url w = (Return c, w1) →
  ∃ data mode m,
    c = Sha256.hexdigest data
    ∧ cache_ready w1
    ∧ fs w1 !! p = Some (File data mode)
    ∧ fs w1 !! sidecar p = Some (File c m).
Proof.
  intros Hslot Hnone H. unfold hash_asset, checksum_file_path in H.
  destruct (cache_file_path url w) as [[p0|e] w0] eqn:E;
    [|by rewrite (bind_Raise _ _ _ _ _ (bind_Raise _ _ _ _ _ E)) in H].
  destruct (cache_file_path_Return _ _ _ _ E)
    as (Hslot0 & Hready & _ & _ & _ & _ & _ & _ & _ & Hout).
  assert (p0 = p) as -> by congruence.
  destruct (cache_slot_outside _ _ Hslot) as [Hp Hsp].
  rewrite (bind_Return _ _ _ _ _ (bind_Return _ _ _ _ _ E)) in H.
  unfold ret in H. fold (sidecar p) in H.
  unfold bind at 1 in H. unfold path_exists in H.
  rewrite (Hout _ Hsp), Hnone in H.
  rewrite bool_decide_eq_false_2 in H by (by intros [? ?]).
  destruct (download_to_cache url w0) as [[p1|e] w2] eqn:Ed;
    [|by rewrite (bind_Raise _ _ _ _ _ Ed) in H].
  rewrite (bind_Return _ _ _ _ _ Ed) in H.
  destruct (download_to_cache_Return _ _ _ _ Ed) as (Hslot1 & Hready2 & _).
  assert (p1 = p) as -> by congruence.
  unfold bind at 1 in H. unfold checksum_of_file, bind, read_file in H.
  destruct (fs w2 !! p) as [[data mode|]|] eqn:Eb; [|done..].
  rewrite calc_checksum_sha256 in H.
  set (w3 := add_event (Hashed p) w2) in H.
  assert (cache_ready w3) as Hr3 by (by apply (cache_ready_same_fs w2)).
  unfold store_checksum_in_cache in H.
  rewrite (bind_Return _ _ _ _ _ (checksum_file_path_ready _ _ _ Hr3 Hslot)) in H.
  unfold write_file in H. change (fs w3) with (fs w2) in H.
  assert (∀ x, (Return c, w1)
               = (Return (Sha256.hexdigest data),
                  set_fs (<[sidecar p := File (Sha256.hexdigest data) x]> (fs w2)) w3) →
               ∃ data0 mode0 m,
                 c = Sha256.hexdigest data0 ∧ cache_ready w1
                 ∧ fs w1 !! p = Some (File data0 mode0)
                 ∧ fs w1 !! sidecar p = Some (File c m)) as Hfin.
  { intros x [= -> ->]. exists data, mode, x. split; [done|]. split.
    - exact (cache_ready_insert (sidecar p) _ w3 Hsp Hr3).
    - cbn [fs set_fs]. rewrite lookup_insert_ne by apply sidecar_neq_sym.
      by rewrite lookup_insert_eq. }
  destruct (fs w2 !! sidecar p) as [[d m0|]|]; [|done|]; unfold ret in H;
    symmetry in H; by eapply Hfin.
Qed.

(** What [hash_asset] freezes into the lock, [download_to_cache_and_verify]
    accepts: when no sidecar was there, the checksum [hash_asset] returns
    is that of the blob it leaves in the cache, and verifying the URL
    against it returns the cache path and keeps the files. *)
Theorem hash_asset_then_verify url w p c w1 :
  cache_slot url = Some p →
  fs w !! sidecar p = None →
  hash_asset url w = (Return c, w1) →
  ∃ w2, download_to_cache_and_verify url c w1 = (Return p, w2) ∧ fs w2 = fs w1.
Proof.
  intros Hslot Hnone H.
  destruct (hash_asset_fresh _ _ _ _ _ Hslot Hnone H)
    as (data & mode & m & -> & Hready & Hblob & Hside).
  unfold download_to_cache_and_verify.
  rewrite (bind_Return _ _ w1 p w1); cycle 1.
  { apply download_to_cache_hit; [by apply cache_file_path_ready|by rewrite Hblob]. }
  rewrite (bind_Return _ _ _ _ _ (checksum_file_path_ready _ _ _ Hready Hslot)).
  rewrite (bind_Return _ _ _ _ _ (checksum_of_file_File _ _ _ _ Hblob)).
  rewrite String.eqb_refl. cbn [negb]. by eexists.
Qed.

Lemma hash_asset_then_verify_witness :
  let w1 := snd (hash_asset flaky_url steady_world) in
  ∃ w2,
    download_to_cache_and_verify flaky_url (Sha256.hexdigest "hello world") w1
    = (Return flaky_path, w2) ∧ fs w2 = fs w1.
Proof.
  intros w1.
  apply (hash_asset_then_verify flaky_url steady_world flaky_path).
  - vm_compute. reflexivity.
  - vm_compute. reflexivity.
  - vm_compute. reflexivity.
Defined.

(** A URL with fewer than three [/]-separated parts is refused by
    [cache_file_path], and so by every cache function, before anything is
    requested or written; no other URL gets that error. *)
Theorem malformed_url_touches_nothing url w :
  ((length (Text.split "/" url) < 3)%nat →
     cache_file_path url w = (Raise (MalformedDownloadUrl url), w)
     ∧ download_to_cache url w = (Raise (MalformedDownloadUrl url), w)
     ∧ hash_asset url w = (Raise (MalformedDownloadUrl url), w)
     ∧ ∀ expected,
         download_to_cache_and_verify url expected w
         = (Raise (MalformedDownloadUrl url), w))
  ∧ (∀ e w', cache_file_path url w = (Raise (MalformedDownloadUrl e), w') →
       (length (Text.split "/" url) < 3)%nat).
Proof.
  split.
  - intros Hlen.
    assert (cache_file_path url w = (Raise (MalformedDownloadUrl url), w)) as E.
    { apply cache_file_path_unslotted. unfold cache_slot, cache_file_name.
      by rewrite (proj2 (Nat.ltb_lt _ _) Hlen). }
    assert (download_to_cache url w = (Raise (MalformedDownloadUrl url), w)) as Ed.
    { unfold download_to_cache, get_cached_url.
      by rewrite (bind_Raise _ _ _ _ _ (bind_Raise _ _ _ _ _ E)). }
    split; [done|]. split; [done|]. split.
    + unfold hash_asset, checksum_file_path.
      by rewrite (bind_Raise _ _ _ _ _ (bind_Raise _ _ _ _ _ E)).
    + intros expected. unfold download_to_cache_and_verify.
      by rewrite (bind_Raise _ _ _ _ _ Ed).
  - intros e w' H. unfold cache_file_path in H. rewrite mkdir_parents_cache in H.
    unfold bind, lift, cache_file_name in H.
    destruct (length (Text.split "/" url) <? 3)%nat eqn:El; [by apply Nat.ltb_lt|].
    destruct (mkdir_each cache_chain w) as [[[]|e1] w1] eqn:E1; [done|].
    apply mkdir_each_Raise in E1 as [q ->]. done.
Qed.

Lemma malformed_url_touches_nothing_witness :
  download_to_cache "example.org/tool" steady_world
  = (Raise (MalformedDownloadUrl "example.org/tool"), steady_world).
Proof.
  apply (proj1 (malformed_url_touches_nothing "example.org/tool" steady_world)).
  vm_compute. lia.
Defined.

(* ===================================================================== *)
(** * Further properties of the resolver *)
(* ===================================================================== *)

Lemma find_asset_Some expected l url :
  find_asset expected l = Some url ↔
  ∃ l1 a l2, l = l1 ++ a :: l2 ∧ name a = expected ∧ browser_download_url a = url
             ∧ ∀ b, b ∈ l1 → name b ≠ expected.
Proof.
  induction l as [|a l IH]; cbn [find_asset].
  - split; [done|]. intros (l1 & a & l2 & H & _). by destruct l1.
  - destruct (String.eqb_spec (name a) expected) as [Heq|Hne].
    + split.
      * intros [= <-]. exists [], a, l. split; [done|]. split; [done|]. split; [done|].
        by intros b ?%elem_of_nil.
      * intros (l1 & a' & l2 & H & Hn & Hu & Hbefore). destruct l1 as [|b l1].
        -- by simplify_eq/=.
        -- simplify_eq/=. exfalso. apply (Hbefore b); [by left|done].
    + rewrite IH. split.
      * intros (l1 & a' & l2 & -> & Hn & Hu & Hbefore).
        exists (a :: l1), a', l2. split; [done|]. split; [done|]. split; [done|].
        intros b [->|Hb]%elem_of_cons; [done|by apply Hbefore].
      * intros (l1 & a' & l2 & H & Hn & Hu & Hbefore). destruct l1 as [|b l1].
        -- by simplify_eq/=.
        -- simplify_eq/=. exists l1, a', l2. split; [done|]. split; [done|].
           split; [done|]. intros b' Hb'. apply Hbefore. by right.
Qed.

Lemma find_asset_None expected l :
  find_asset expected l = None ↔ ∀ a, a ∈ l → name a ≠ expected.
Proof.
  induction l as [|a l IH]; cbn [find_asset].
  - split; [|done]. by intros _ a ?%elem_of_nil.
  - destruct (String.eqb_spec (name a) expected) as [Heq|Hne].
    + split; [done|]. intros H. exfalso. apply (H a); [by left|done].
    + rewrite IH. split.
      * intros H b [->|Hb]%elem_of_cons; [done|by apply H].
      * intros H b Hb. apply H. by right.
Qed.

(** [get_download_url]: the two sentinels give the archive URLs of the
    release whatever its assets and tag are.  Any other pattern is handed
    to [str.format] with the version: an exception of [str.format] is the
    outcome; the text it returns is looked up by exact name: the URL
    returned is that of the first asset of that name, and the
    asset-not-found error, which carries the pattern as it was given,
    comes exactly when no asset has that name.  A release without a tag
    ends in an AttributeError. *)
Theorem get_download_url_exact_name format rel pattern :
  get_download_url format rel "!tarball" = Return (tarball_url rel)
  ∧ get_download_url format rel "!zipball" = Return (zipball_url rel)
  ∧ (pattern ≠ "!tarball"%string → pattern ≠ "!zipball"%string →
     (tag_name rel = None →
        get_download_url format rel pattern = Raise AttributeError)
     ∧ ∀ tag, tag_name rel = Some tag →
         (∀ e, format pattern (Text.lstrip "v" tag) = Raise e →
               get_download_url format rel pattern = Raise e)
         ∧ ∀ expected, format pattern (Text.lstrip "v" tag) = Return expected →
             (∀ url, get_download_url format rel pattern = Return url ↔
                ∃ l1 a l2, assets rel = l1 ++ a :: l2 ∧ name a = expected
                           ∧ browser_download_url a = url
                           ∧ ∀ b, b ∈ l1 → name b ≠ expected)
             ∧ (get_download_url format rel pattern = Raise (AssetNotFound pattern) ↔
                ∀ a, a ∈ assets rel → name a ≠ expected)).
Proof.
  split; [done|]. split; [done|].
  intros Ht Hz. unfold get_download_url.
  rewrite (proj2 (String.eqb_neq _ _) Ht), (proj2 (String.eqb_neq _ _) Hz).
  split; [by intros ->|]. intros tag ->. split; [by intros e ->|].
  intros expected ->. split.
  - intros url. rewrite <- find_asset_Some.
    destruct (find_asset expected (assets rel)); split; congruence.
  - rewrite <- find_asset_None.
    destruct (find_asset expected (assets rel)); split; congruence.
Qed.

Lemma get_download_url_exact_name_witness :
  get_download_url simple_format double_v_release "tool-{version}"
  = Return "https://example.org/a"%string.
Proof.
  destruct (get_download_url_exact_name simple_format double_v_release "tool-{version}")
    as (_ & _ & H).
  destruct H as [_ H]; [by intros [=]|by intros [=]|].
  destruct (H "vv1.2.0" eq_refl) as [_ Hfound].
  destruct (Hfound "tool-1.2.0" eq_refl) as [Hurl _].
  apply Hurl. exists [], (ReleaseAsset "tool-1.2.0" "https://example.org/a"),
    [ReleaseAsset "tool-v1.2.0" "https://example.org/b"].
  split; [reflexivity|]. split; [reflexivity|]. split; [reflexivity|].
  by intros b ?%elem_of_nil.
Defined.

Section ResolverEdges.

Context {V : Type}.
Variable parse : string → option V.
Variable vmatch : V → string → option bool.
Variable compare : V → V → comparison.

(** [get_latest_release] makes one request and writes nothing, however it
    ends; a refused connection, a 4xx or 5xx status and any other status
    than 200 each end it with their own error before a release is looked
    at. *)
Theorem get_latest_release_one_request repo range w :
  snd (get_latest_release V parse vmatch compare repo range w)
  = add_event (Requested (releases_url repo)) w
  ∧ (github w repo = ApiUnreachable →
       fst (get_latest_release V parse vmatch compare repo range w)
       = Raise ConnectionError)
  ∧ (∀ status releases,
       github w repo = ApiResponse status releases →
       (400 ≤ status < 600 →
          fst (get_latest_release V parse vmatch compare repo range w)
          = Raise (HTTPError status))
       ∧ (¬ (400 ≤ status < 600) → status ≠ 200 →
          fst (get_latest_release V parse vmatch compare repo range w)
          = Raise (UnexpectedApiStatus repo status))).
Proof.
  unfold get_latest_release, bind, fetch_releases, lift.
  destruct (github w repo) as [|status releases] eqn:E.
  - split; [done|]. split; [done|]. by intros ? ? [=].
  - split; [|split; [by intros [=]|]].
    + destruct ((400 <=? status) && (status <? 600)); [done|].
      destruct (negb (status =? 200)); [done|].
      destruct (collect_matching V parse vmatch releases range) as [[|first rest]|e];
        done.
    + intros status' releases' [= <- <-]. split.
      * intros [H1 H2].
        by rewrite (proj2 (Z.leb_le _ _) H1), (proj2 (Z.ltb_lt _ _) H2).
      * intros Hout Hne.
        assert ((400 <=? status) && (status <? 600) = false) as ->.
        { apply andb_false_iff. destruct (Z.leb_spec 400 status); [|by left].
          destruct (Z.ltb_spec status 600); [lia|by right]. }
        by rewrite (proj2 (Z.eqb_neq _ _) Hne).
Qed.

Hypothesis compare_antisym : ∀ a b, compare a b = CompOpp (compare b a).
Hypothesis compare_trans :
  ∀ a b c, compare a b ≠ Gt → compare b c ≠ Gt → compare a c ≠ Gt.

Lemma compare_Lt_le a b c :
  compare a b = Lt → compare b c ≠ Gt → compare a c = Lt.
Proof.
  intros Hab Hbc. destruct (compare a c) eqn:E; [|done|].
  - exfalso. assert (compare c a ≠ Gt) as Hca by (rewrite compare_antisym, E; done).
    pose proof (compare_trans _ _ _ Hbc Hca) as Hba.
    rewrite compare_antisym, Hab in Hba. done.
  - exfalso. assert (compare c a ≠ Gt) as Hca by (rewrite compare_antisym, E; done).
    pose proof (compare_trans _ _ _ Hbc Hca) as Hba.
    rewrite compare_antisym, Hab in Hba. done.
Qed.

Lemma compare_le_Lt a b c :
  compare a b ≠ Gt → compare b c = Lt → compare a c = Lt.
Proof.
  intros Hab Hbc. destruct (compare a c) eqn:E; [|done|].
  - exfalso. assert (compare c a ≠ Gt) as Hca by (rewrite compare_antisym, E; done).
    pose proof (compare_trans _ _ _ Hca Hab) as Hcb.
    rewrite compare_antisym, Hbc in Hcb. done.
  - exfalso. assert (compare c a ≠ Gt) as Hca by (rewrite compare_antisym, E; done).
    pose proof (compare_trans _ _ _ Hca Hab) as Hcb.
    rewrite compare_antisym, Hbc in Hcb. done.
Qed.

Lemma max_from_not_below best rest :
  compare (snd best) (snd (max_from V compare best rest)) ≠ Gt.
Proof.
  revert best. induction rest as [|x rest IH]; intros best; cbn [max_from].
  - pose proof (compare_antisym (snd best) (snd best)).
    by destruct (compare (snd best) (snd best)).
  - destruct (compare (snd x) (snd best)) eqn:E; try apply IH.
    eapply compare_trans; [|apply IH]. rewrite compare_antisym, E. done.
Qed.

Lemma max_from_first best rest :
  ∃ l1 l2, best :: rest = l1 ++ max_from V compare best rest :: l2
           ∧ ∀ c, c ∈ l1 → compare (snd c) (snd (max_from V compare best rest)) = Lt.
Proof.
  revert best. induction rest as [|x rest IH]; intros best; cbn [max_from].
  - exists [], []. split; [done|]. by intros c ?%elem_of_nil.
  - destruct (compare (snd x) (snd best)) eqn:E.
    + destruct (IH best) as (l1 & l2 & Heq & Hlt). destruct l1 as [|b l1].
      * exists [], (x :: rest). cbn [app] in *. injection Heq as Hb Hr.
        split; [by rewrite <- Hb|]. by intros c ?%elem_of_nil.
      * cbn [app] in Heq. injection Heq as <- Hr.
        exists (best :: x :: l1), l2. split; [cbn [app]; by rewrite <- Hr|].
        intros c [->|[->|Hc]%elem_of_cons]%elem_of_cons.
        -- apply Hlt. by left.
        -- eapply compare_le_Lt; [|apply Hlt; by left]. by rewrite E.
        -- apply Hlt. by right.
    + destruct (IH best) as (l1 & l2 & Heq & Hlt). destruct l1 as [|b l1].
      * exists [], (x :: rest). cbn [app] in *. injection Heq as Hb Hr.
        split; [by rewrite <- Hb|]. by intros c ?%elem_of_nil.
      * cbn [app] in Heq. injection Heq as <- Hr.
        exists (best :: x :: l1), l2. split; [cbn [app]; by rewrite <- Hr|].
        intros c [->|[->|Hc]%elem_of_cons]%elem_of_cons.
        -- apply Hlt. by left.
        -- eapply compare_le_Lt; [|apply Hlt; by left]. by rewrite E.
        -- apply Hlt. by right.
    + destruct (IH x) as (l1 & l2 & Heq & Hlt).
      exists (best :: l1), l2. split; [by rewrite Heq|].
      intros c [->|Hc]%elem_of_cons; [|by apply Hlt].
      eapply compare_Lt_le; [|apply max_from_not_below].
      rewrite compare_antisym, E. done.
Qed.

(** Among candidates of equal greatest version the resolver returns the
    one the API lists first: every candidate listed before the release it
    returns has a strictly smaller version. *)
Theorem get_latest_release_first_of_greatest repo range w releases :
  github w repo = ApiResponse 200 releases →
  (∀ v, vmatch v range ≠ None) →
  candidates parse vmatch releases range ≠ [] →
  ∃ l1 rel v l2,
    candidates parse vmatch releases range = l1 ++ (rel, v) :: l2
    ∧ fst (get_latest_release V parse vmatch compare repo range w) = Return rel
    ∧ ∀ c, c ∈ l1 → compare (snd c) v = Lt.
Proof.
  intros Hapi Hok Hne.
  unfold get_latest_release, bind, fetch_releases, lift. rewrite Hapi. cbn.
  rewrite collect_matching_candidates by done.
  destruct (candidates parse vmatch releases range) as [|first rest]; [done|].
  destruct (max_from_first first rest) as (l1 & l2 & Heq & Hlt).
  destruct (max_from V compare first rest) as [rel v].
  by exists l1, rel, v, l2.
Qed.

End ResolverEdges.

Lemma get_latest_release_first_of_greatest_witness :
  ∃ l1 rel v l2,
    candidates CoreSemver.parse CoreSemver.vmatch tool_releases ">=1.0.0"
    = l1 ++ (rel, v) :: l2
    ∧ fst (get_latest_release CoreSemver.VersionInfo CoreSemver.parse CoreSemver.vmatch
             CoreSemver.compare "o/r" ">=1.0.0" release_world) = Return rel
    ∧ ∀ c, c ∈ l1 → CoreSemver.compare (snd c) v = Lt.
Proof.
  apply (get_latest_release_first_of_greatest CoreSemver.parse CoreSemver.vmatch
           CoreSemver.compare core_compare_antisym core_compare_trans
           "o/r" ">=1.0.0" release_world tool_releases).
  - reflexivity.
  - exact core_vmatch_ge.
  - vm_compute. intros [=].
Defined.

(* ===================================================================== *)
(** * Further properties of the lock gate *)
(* ===================================================================== *)



Lemma load_lock_cases check w :
  load_lock check w =
    (match lock_file w with
     | Absent => Raise (LockNotLoaded (OSError LOCK_FILE))
     | Unparsable => Raise (LockNotLoaded ValueError)
     | Holds lock =>
         if check then
           match fst (read_config w) with
           | Raise e => Raise (LockNotLoaded e)
           | Return config =>
               match subscript lock "config_checksum" with
               | Raise e => Raise (LockNotLoaded e)
               | Return stored =>
                   if differs_from (config_hash config) stored
                   then Raise (LockNotLoaded LockNotInSync)
                   else Return lock
               end
           end
         else Return lock
     end, w).
Proof.
  unfold load_lock, rethrow, bind, json_load_lock, check_lock_stale, bind, lift.
  destruct (lock_file w) as [| |lock]; [done..|].
  destruct check; [|done].
  destruct (read_config w) as [oc wc] eqn:Ec.
  pose proof (read_config_pure _ _ _ Ec) as ->. cbn [fst].
  destruct oc as [config|e]; [|done].
  destruct (subscript lock "config_checksum") as [stored|e]; [|done].
  by destruct (differs_from (config_hash config) stored).
Qed.

(** [load_lock] changes nothing and raises nothing but its own
    could-not-load error: a missing or unreadable lock file, a lock
    without a fingerprint and, with the check on, a configuration that
    cannot be read all surface as that error with their cause; with the
    check off the declarations are not read at all. *)
Theorem load_lock_only_its_error check w :
  snd (load_lock check w) = w
  ∧ (∀ e, fst (load_lock check w) = Raise e → ∃ cause, e = LockNotLoaded cause)
  ∧ (lock_file w = Absent →
       fst (load_lock check w) = Raise (LockNotLoaded (OSError LOCK_FILE)))
  ∧ (lock_file w = Unparsable →
       fst (load_lock check w) = Raise (LockNotLoaded ValueError))
  ∧ (∀ lock, lock_file w = Holds lock → fst (load_lock false w) = Return lock)
  ∧ (∀ lock e, lock_file w = Holds lock → fst (read_config w) = Raise e →
       fst (load_lock true w) = Raise (LockNotLoaded e))
  ∧ (∀ d config, lock_file w = Holds (Json.VDict d) →
       fst (read_config w) = Return config →
       Json.assoc_get "config_checksum" d = None →
       fst (load_lock true w) = Raise (LockNotLoaded (KeyError "config_checksum"))).
Proof.
  rewrite load_lock_cases. cbn [fst snd]. split; [done|]. split.
  { intros e. destruct (lock_file w) as [| |lock]; [intros [= <-]; eauto..|].
    destruct check; [|done].
    destruct (fst (read_config w)) as [config|e0]; [|intros [= <-]; eauto].
    destruct (subscript lock "config_checksum") as [stored|e1];
      [|intros [= <-]; eauto].
    destruct (differs_from (config_hash config) stored); [|done].
    intros [= <-]. eauto. }
  split; [by intros ->|]. split; [by intros ->|].
  split; [intros lock Hl; by rewrite load_lock_cases, Hl|].
  split.
  - intros lock e Hl He. by rewrite load_lock_cases, Hl, He.
  - intros d config Hl Hc Hnone. rewrite load_lock_cases, Hl, Hc. cbn [fst].
    unfold subscript. by rewrite Hnone.
Qed.



(* ===================================================================== *)
(** * Further properties of member selection and of the installer *)
(* ===================================================================== *)

Section SelectionEdges.

Variable fnmatch : string → string → bool.

Lemma select_by_glob_none globs : select_by_glob fnmatch ∅ globs = [].
Proof.
  destruct (select_by_glob fnmatch ∅ globs) as [|m ms] eqn:E; [done|].
  assert (m ∈ select_by_glob fnmatch ∅ globs) as Hin by (rewrite E; by left).
  apply select_by_glob_spec in Hin as [Hin _]. set_solver.
Qed.

(** With no glob, and with no name, [filter_files] yields nothing and
    raises the no-match error at the first [next]; a generator that has
    ended, normally or with an error, only stops from then on. *)
Theorem filter_files_nothing_to_select :
  (∀ files fuel,
     consume fnmatch (S fuel) (filter_files files []) = ([], Failed GlobsDidNotMatch))
  ∧ (∀ globs fuel,
       consume fnmatch (S fuel) (filter_files [] globs) = ([], Failed GlobsDidNotMatch))
  ∧ (∀ g, gen_done g = true → resume fnmatch g = (StopIteration, g))
  ∧ (∀ g g', resume fnmatch g = (StopIteration, g') → gen_done g' = true)
  ∧ (∀ g e g', resume fnmatch g = (Throw e, g') → gen_done g' = true).
Proof.
  split; [done|]. split.
  { intros globs fuel. unfold filter_files.
    pose proof (consume_spec fnmatch (S fuel) (list_to_set []) false [] globs) as H.
    cbn [app] in H.
    replace (list_to_set [] ∖ list_to_set []) with (∅ : gset string) in H by set_solver.
    rewrite select_by_glob_none in H.
    apply H; [constructor|by intros x ?%elem_of_nil|cbn; lia]. }
  split.
  { intros g Hd. unfold resume. by rewrite Hd. }
  assert (∀ files m pending globs r g',
            yield_member files m pending globs = (r, g') →
            (∀ x, r ≠ Yield x) → gen_done g' = true) as Hyield.
  { intros files m pending globs r g'. unfold yield_member.
    destruct (decide (m ∈ files)); intros [= <- <-] Hr; [by destruct (Hr m)|done]. }
  assert (∀ files matched globs r g',
            next_glob fnmatch files matched globs = (r, g') →
            (∀ x, r ≠ Yield x) → gen_done g' = true) as Hnext.
  { intros files matched globs. induction globs as [|glob rest IH];
      intros r g'; cbn [next_glob].
    - by intros [= <- <-].
    - destruct (fnmatch_filter fnmatch files glob) as [|m pending]; [apply IH|].
      apply Hyield. }
  assert (∀ g r g', resume fnmatch g = (r, g') →
                    (∀ x, r ≠ Yield x) → gen_done g' = true) as Hres.
  { intros g r g'. unfold resume. destruct (gen_done g) eqn:Ed.
    - by intros [= <- <-].
    - destruct (gen_pending g); [apply Hnext|apply Hyield]. }
  split.
  - intros g g' H. by apply (Hres _ _ _ H).
  - intros g e g' H. by apply (Hres _ _ _ H).
Qed.

End SelectionEdges.

(** ** chmod_exec *)


Lemma files_under_spec dir f q :
  q ∈ files_under dir f ↔ ∃ d m, f !! q = Some (File d m) ∧ under dir q = true.
Proof.
  unfold files_under. rewrite list_elem_of_omap. split.
  - intros ([p n] & Hin & H). apply elem_of_map_to_list in Hin.
    destruct n as [d m|]; [|done]. destruct (under dir p) eqn:E; [|done].
    simplify_eq. by exists d, m.
  - intros (d & m & Hf & Hu). exists (q, File d m). split.
    + by apply elem_of_map_to_list.
    + by rewrite Hu.
Qed.




(** ** get_platform_assets and install_asset *)

Lemma assoc_get_None {A} k (d : list (string * A)) :
  k ∉ d.*1 → Json.assoc_get k d = None.
Proof.
  induction d as [|[k' v] d IH]; [done|]. cbn [Json.assoc_get fmap list_fmap fst].
  intros Hk. destruct (String.eqb_spec k k') as [->|Hne].
  - exfalso. apply Hk. by left.
  - apply IH. intros Hin. apply Hk. by right.
Qed.

Lemma assoc_set_new {A} k (v : A) d :
  k ∉ d.*1 → Json.assoc_set k v d = d ++ [(k, v)].
Proof.
  induction d as [|[k' v'] d IH]; [done|]. cbn [Json.assoc_set fmap list_fmap fst app].
  intros Hk. destruct (String.eqb_spec k k') as [->|Hne].
  - exfalso. apply Hk. by left.
  - rewrite IH; [done|]. intros Hin. apply Hk. by right.
Qed.

Lemma add_platform_asset_entry {A} platform acc (item : string * list (string * A)) :
  add_platform_asset platform acc item
  = match platform_entry platform item.2 with
    | Some a => Json.assoc_set item.1 a acc
    | None => acc
    end.
Proof.
  unfold add_platform_asset, platform_entry.
  by destruct (Json.assoc_get platform item.2).
Qed.

Lemma omap_cons_eq {A B} (f : A → option B) x l :
  omap f (x :: l) = match f x with Some y => y :: omap f l | None => omap f l end.
Proof. done. Qed.

Lemma get_platform_assets_fold {A} platform
    (assets : list (string * list (string * A))) acc :
  NoDup (acc.*1 ++ assets.*1) →
  fold_left (add_platform_asset platform) assets acc
  = acc ++ omap (fun item => a ← platform_entry platform item.2; Some (item.1, a)) assets.
Proof.
  revert acc. induction assets as [|[n d] assets IH]; intros acc Hnd.
  - cbn. by rewrite app_nil_r.
  - cbn [fold_left]. rewrite add_platform_asset_entry, omap_cons_eq. cbn [fst snd].
    cbn [fmap list_fmap fst] in Hnd.
    apply NoDup_app in Hnd as (Hacc & Hdisj & Hnd').
    apply NoDup_cons in Hnd' as [Hn Hrest].
    assert (n ∉ acc.*1) as Hfresh.
    { intros Hin. apply (Hdisj n Hin). by left. }
    destruct (platform_entry platform d) as [a|]; simpl.
    + rewrite IH.
      * rewrite assoc_set_new by done. by rewrite <- app_assoc.
      * rewrite assoc_set_new by done. rewrite fmap_app. cbn [fmap list_fmap fst].
        rewrite <- app_assoc. cbn [app]. apply NoDup_app. split; [done|]. split.
        -- intros x Hx Hin. apply (Hdisj x Hx). done.
        -- by apply NoDup_cons.
    + apply IH. apply NoDup_app. split; [done|]. split; [|done].
      intros x Hx Hin. apply (Hdisj x Hx). by right.
Qed.

Section InstallerProperties.

Variable fnmatch : string → string → bool.
Variable tar_members : string → string → option (list member).
Variable zip_members : string → option (list member).

Lemma install_asset_by_entry name platform d d' :
  platform_entry platform d = platform_entry platform d' →
  install_asset fnmatch tar_members zip_members name platform d = install_asset fnmatch tar_members zip_members name platform d'.
Proof.
  unfold install_asset, platform_entry. by intros ->.
Qed.

(** The default asset list of the install command: [get_platform_assets]
    lists, in the order of the lock, the assets that have an entry for
    the platform or for ["all"], each with the entry [install_asset]
    takes for it; for an asset of the lock it does not list,
    [install_asset] raises at once and touches nothing. *)
Theorem get_platform_assets_lists_installable
    (assets : list (string * list (string * Asset))) platform :
  NoDup assets.*1 →
  get_platform_assets assets platform
  = omap (fun item => a ← platform_entry platform item.2; Some (item.1, a)) assets
  ∧ (∀ name asset_dict, (name, asset_dict) ∈ assets →
       match Json.assoc_get name (get_platform_assets assets platform) with
       | Some a =>
           platform_entry platform asset_dict = Some a
           ∧ install_asset fnmatch tar_members zip_members name platform asset_dict = install_asset fnmatch tar_members zip_members name platform [(platform, a)]
       | None =>
           ∀ w, install_asset fnmatch tar_members zip_members name platform asset_dict w = (Raise (NoPlatformEntry platform), w)
       end).
Proof.
  intros Hnd.
  assert (get_platform_assets assets platform
          = omap (fun item => a ← platform_entry platform item.2; Some (item.1, a)) assets)
    as Hlist.
  { unfold get_platform_assets. by rewrite get_platform_assets_fold. }
  split; [done|]. intros name d Hin. rewrite Hlist.
  assert (Json.assoc_get name
            (omap (fun item : string * list (string * Asset) =>
                     a ← platform_entry platform item.2; Some (item.1, a)) assets)
          = platform_entry platform d) as ->.
  { clear Hlist. induction assets as [|[n0 d0] assets IH]; [by apply elem_of_nil in Hin|].
    cbn [fmap list_fmap fst] in Hnd. apply NoDup_cons in Hnd as [Hn0 Hnd].
    rewrite omap_cons_eq. cbn [fst snd]. apply elem_of_cons in Hin as [Heq|Hin].
    - simplify_eq. destruct (platform_entry platform d0) as [a|]; simpl.
      + cbn [Json.assoc_get]. by rewrite String.eqb_refl.
      + apply assoc_get_None. intros (x & Hx & Hin)%list_elem_of_fmap.
        apply list_elem_of_omap in Hin as ([n1 d1] & Hin1 & Hsome).
        cbn [fst snd] in Hsome. destruct (platform_entry platform d1); [|done].
        cbn in Hsome. simplify_eq. cbn [fst] in Hn0. apply Hn0.
        apply list_elem_of_fmap. by exists (n1, d1).
    - assert (name ≠ n0) as Hne.
      { intros ->. apply Hn0. apply list_elem_of_fmap. by exists (n0, d). }
      destruct (platform_entry platform d0) as [a|]; simpl; [|by apply IH].
      cbn [Json.assoc_get]. rewrite (proj2 (String.eqb_neq name n0) Hne). by apply IH. }
  destruct (platform_entry platform d) as [a|] eqn:He.
  - split; [done|]. apply install_asset_by_entry. rewrite He.
    unfold platform_entry. cbn [Json.assoc_get]. by rewrite String.eqb_refl.
  - intros w. unfold install_asset. unfold platform_entry in He. by rewrite He.
Qed.

Lemma verify_Return url c w p w2 :
  download_to_cache_and_verify url c w = (Return p, w2) →
  cache_slot url = Some p
  ∧ ∃ data mode, fs w2 !! p = Some (File data mode) ∧ Sha256.hexdigest data = c
                 ∧ ∃ w1, download_to_cache url w = (Return p, w1) ∧ fs w2 = fs w1.
Proof.
  intros H. unfold download_to_cache_and_verify in H.
  destruct (download_to_cache url w) as [[p1|e] w1] eqn:Ed;
    [|by rewrite (bind_Raise _ _ _ _ _ Ed) in H].
  rewrite (bind_Return _ _ _ _ _ Ed) in H.
  destruct (download_to_cache_Return _ _ _ _ Ed) as (Hslot & Hready & _).
  rewrite (bind_Return _ _ _ _ _ (checksum_file_path_ready _ _ _ Hready Hslot)) in H.
  destruct (fs w1 !! p1) as [[data mode|]|] eqn:Hblob.
  - rewrite (bind_Return _ _ _ _ _ (checksum_of_file_File _ _ _ _ Hblob)) in H.
    destruct (String.eqb_spec (Sha256.hexdigest data) c) as [Heq|Hne]; cbn [negb] in H.
    + unfold ret in H. injection H as <- <-. split; [done|]. exists data, mode.
      split; [done|]. split; [done|]. by exists w1.
    + unfold bind, raise in H.
      destruct (unlink_missing_ok p1 _) as [[[]|?] ?]; [|done].
      by destruct (unlink_missing_ok (sidecar p1) _) as [[[]|?] ?].
  - unfold checksum_of_file, bind, read_file in H. by rewrite Hblob in H.
  - unfold checksum_of_file, bind, read_file in H. by rewrite Hblob in H.
Qed.

Lemma at_most_rmtree p x dir w o w' :
  rmtree dir w = (o, w') → at_most p x w → at_most p x w'.
Proof.
  unfold rmtree. intros [= <- <-] H. unfold at_most in *. cbn [fs set_fs].
  destruct (filter _ (fs w) !! p) as [y|] eqn:E; [|by auto].
  apply map_lookup_filter_Some in E as [E _]. by rewrite <- E.
Qed.

Lemma at_most_unlink p x q w o w' :
  unlink_missing_ok q w = (o, w') → at_most p x w → at_most p x w'.
Proof.
  unfold unlink_missing_ok. intros Hrun H.
  destruct (fs w !! q) as [[d m|]|]; simplify_eq; [|done..].
  unfold at_most in *. cbn [fs set_fs]. destruct (decide (p = q)) as [->|Hne].
  - rewrite lookup_delete_eq. auto.
  - by rewrite lookup_delete_ne.
Qed.

Lemma at_most_mkdir_each p x qs w o w' :
  mkdir_each qs w = (o, w') → at_most p x w → at_most p x w'.
Proof.
  revert w. induction qs as [|q qs IH]; intros w Hrun H; cbn in Hrun.
  - unfold ret in Hrun. by simplify_eq.
  - unfold bind in Hrun.
    destruct (mkdir_one_cases q w) as [[E _]|[(E & Hq & Hnone)|[E _]]];
      rewrite E in Hrun.
    + by apply (IH w).
    + apply (IH _ Hrun). unfold at_most in *. cbn [fs set_fs].
      destruct (decide (p = q)) as [->|Hne].
      * rewrite lookup_insert_eq. auto.
      * by rewrite lookup_insert_ne.
    + by simplify_eq.
Qed.

(** An install by plain copy that returns has put at the destination the
    bytes of the cache file of the entry's URL, whose SHA-256 is the
    checksum of the entry; the permission bits are those of the cache
    file, with the three execute bits added when the entry asks for an
    executable.  The cache file is still there. *)
Theorem install_asset_copies_verified_bytes name platform asset_dict asset w w' :
  platform_entry platform asset_dict = Some asset →
  extract asset = None →
  install_asset fnmatch tar_members zip_members name platform asset_dict w = (Return tt, w') →
  ∃ p data mode,
    cache_slot (download_url asset) = Some p
    ∧ Sha256.hexdigest data = checksum asset
    ∧ fs w' !! destination asset
      = Some (File data (if executable asset then Z.lor mode exec_bits else mode))
    ∧ (destination asset ≠ p → fs w' !! p = Some (File data mode)).
Proof.
  intros Hentry Hcopy H. unfold install_asset in H.
  unfold platform_entry in Hentry. rewrite Hentry, Hcopy in H.
  destruct (download_to_cache_and_verify (download_url asset) (checksum asset) w)
    as [[p|e] w1] eqn:Ev; [|by rewrite (bind_Raise _ _ _ _ _ Ev) in H].
  rewrite (bind_Return _ _ _ _ _ Ev) in H.
  destruct (verify_Return _ _ _ _ _ Ev) as (Hslot & data & mode & Hblob & Hsum & _).
  exists p, data, mode. split; [done|]. split; [done|].
  set (dest := destination asset) in *.
  assert (at_most p (File data mode) w1) as H1 by by left.
  unfold bind at 1 in H. unfold path_exists at 1 in H.
  unfold bind at 1 in H.
  destruct ((if bool_decide (is_Some (fs w1 !! dest))
             then let* is_dir := path_is_dir dest in
                  if is_dir then rmtree dest else unlink_missing_ok dest
             else ret tt) w1) as [[[]|e] w2] eqn:Ec; [|done].
  assert (at_most p (File data mode) w2) as H2.
  { destruct (bool_decide (is_Some (fs w1 !! dest))).
    - unfold bind, path_is_dir in Ec.
      destruct (match fs w1 !! dest with Some Dir => true | _ => false end).
      + by eapply at_most_rmtree.
      + by eapply at_most_unlink.
    - unfold ret in Ec. by simplify_eq. }
  unfold bind at 1 in H.
  destruct (mkdir_parent dest w2) as [[[]|e] w3] eqn:Em; [|done].
  assert (at_most p (File data mode) w3) as H3 by by eapply at_most_mkdir_each.
  unfold bind at 1 in H. unfold copy2 at 1 in H.
  destruct (fs w3 !! p) as [[d m|]|] eqn:Hp; [|done..].
  assert (d = data ∧ m = mode) as [-> ->].
  { destruct H3 as [H3|[H3|H3]]; by simplify_eq. }
  assert (fs w3 !! dest ≠ Some Dir →
          (if executable asset then chmod_exec dest else ret tt)
            (set_fs (<[dest := File data mode]> (fs w3)) w3) = (Return tt, w') →
          fs w' !! dest
          = Some (File data (if executable asset then Z.lor mode exec_bits else mode))
          ∧ (dest ≠ p → fs w' !! p = Some (File data mode))) as Hlast.
  { intros _ Hrun. destruct (executable asset).
    - unfold chmod_exec, bind, path_is_dir in Hrun. cbn [fs set_fs] in Hrun.
      rewrite lookup_insert_eq in Hrun. unfold chmod_add_exec in Hrun.
      cbn [fs set_fs] in Hrun. rewrite lookup_insert_eq in Hrun.
      injection Hrun as <-. cbn [fs set_fs]. split.
      + by rewrite lookup_insert_eq.
      + intros Hne. by rewrite !lookup_insert_ne.
    - unfold ret in Hrun. injection Hrun as <-. cbn [fs set_fs]. split.
      + by rewrite lookup_insert_eq.
      + intros Hne. by rewrite lookup_insert_ne. }
  destruct (fs w3 !! dest) as [[d0 m0|]|] eqn:Hd; [by apply Hlast|done|by apply Hlast].
Qed.

End InstallerProperties.

Lemma get_platform_assets_lists_installable_witness :
  get_platform_assets lock_assets "linux/amd64"
  = [("tool"%string, archive_entry true None);
     ("helper"%string, archive_entry false None)]
  ∧ get_platform_assets lock_assets "darwin/arm64"
    = [("tool"%string, archive_entry true None)].
Proof.
  split.
  - rewrite (proj1 (get_platform_assets_lists_installable simple_fnmatch archive_members
                      (fun _ => None) lock_assets "linux/amd64"
                      ltac:(vm_compute; repeat constructor; set_solver))).
    reflexivity.
  - rewrite (proj1 (get_platform_assets_lists_installable simple_fnmatch archive_members
                      (fun _ => None) lock_assets "darwin/arm64"
                      ltac:(vm_compute; repeat constructor; set_solver))).
    reflexivity.
Defined.

Lemma install_asset_copies_verified_bytes_witness :
  let w' := snd (install_asset simple_fnmatch archive_members (fun _ => None)
                   "tool" "linux/amd64" [("all"%string, archive_entry true None)]
                   archive_world) in
  ∃ p data mode,
    cache_slot archive_url = Some p
    ∧ Sha256.hexdigest data = checksum (archive_entry true None)
    ∧ fs w' !! "out/tool"%string = Some (File data (Z.lor mode exec_bits))
    ∧ ("out/tool"%string ≠ p → fs w' !! p = Some (File data mode)).
Proof.
  intros w'.
  apply (install_asset_copies_verified_bytes simple_fnmatch archive_members
           (fun _ => None) "tool" "linux/amd64"
           [("all"%string, archive_entry true None)] (archive_entry true None)
           archive_world w').
  - reflexivity.
  - reflexivity.
  - vm_compute. reflexivity.
Defined.

(** ** detect_archive_type and extract_asset *)

Lemma rev_app_acc a acc : String.rev_app a acc = String.rev_app a EmptyString +:+ acc.
Proof.
  revert acc. induction a as [|c a IH]; intros acc; [done|].
  cbn [String.rev_app]. rewrite (IH (String c acc)), (IH (String c EmptyString)).
  by rewrite string_app_assoc.
Qed.

Lemma rev_app_app a b acc :
  String.rev_app (a +:+ b) acc = String.rev_app b (String.rev_app a acc).
Proof.
  revert acc. induction a as [|c a IH]; intros acc; [done|].
  change (String c a +:+ b) with (String c (a +:+ b)). cbn [String.rev_app].
  apply IH.
Qed.

Lemma string_rev_app a b : String.rev (a +:+ b) = String.rev b +:+ String.rev a.
Proof. unfold String.rev. by rewrite rev_app_app, rev_app_acc. Qed.

Lemma startswith_app p s : Text.startswith p (p +:+ s) = true.
Proof.
  induction p as [|c p IH]; [done|].
  change (String c p +:+ s) with (String c (p +:+ s)). cbn [Text.startswith].
  by rewrite Ascii.eqb_refl, IH.
Qed.

Lemma endswith_app stem suffix : Text.endswith suffix (stem +:+ suffix) = true.
Proof. unfold Text.endswith. by rewrite string_rev_app, startswith_app. Qed.

Lemma endswith_other suffix other stem c1 r1 c2 r2 :
  String.rev suffix = String c1 r1 → String.rev other = String c2 r2 → c1 ≠ c2 →
  Text.endswith suffix (stem +:+ other) = false.
Proof.
  intros H1 H2 Hne. unfold Text.endswith. rewrite string_rev_app, H1, H2.
  change (String c2 r2 +:+ String.rev stem) with (String c2 (r2 +:+ String.rev stem)).
  cbn [Text.startswith]. by rewrite (proj2 (Ascii.eqb_neq c1 c2) Hne).
Qed.

(** [detect_archive_type] goes by the end of the name alone, whatever
    comes before it: [.tar.gz] and [.tgz] give ["tar.gz"], [.tar] gives
    ["tar"], [.zip] gives ["zip"], and so do the two names GitHub's source
    archives go by.  What it returns is always one of these three. *)
Theorem detect_archive_type_by_suffix :
  (∀ stem, detect_archive_type (stem +:+ ".tar.gz") = Return "tar.gz"%string)
  ∧ (∀ stem, detect_archive_type (stem +:+ ".tgz") = Return "tar.gz"%string)
  ∧ (∀ stem, detect_archive_type (stem +:+ ".tar") = Return "tar"%string)
  ∧ (∀ stem, detect_archive_type (stem +:+ ".zip") = Return "zip"%string)
  ∧ detect_archive_type "!tarball" = Return "tar.gz"%string
  ∧ detect_archive_type "!zipball" = Return "zip"%string
  ∧ (∀ name ft, detect_archive_type name = Return ft → ft ∈ archive_types).
Proof.
  repeat split; try reflexivity.
  - intros stem. unfold detect_archive_type. by rewrite endswith_app.
  - intros stem. unfold detect_archive_type. rewrite (endswith_app stem ".tgz").
    by rewrite orb_true_r.
  - intros stem. unfold detect_archive_type.
    rewrite (endswith_other ".tar.gz" ".tar" stem "z" _ "r" _ eq_refl eq_refl) by done.
    rewrite (endswith_other ".tgz" ".tar" stem "z" _ "r" _ eq_refl eq_refl) by done.
    rewrite (endswith_app stem ".tar"). cbn [orb].
    destruct (String.eqb_spec (stem +:+ ".tar") "!tarball") as [Heq|Hne]; [|done].
    exfalso. assert (Text.endswith ".tar" "!tarball" = true) as Hend
      by (rewrite <- Heq; apply endswith_app). by vm_compute in Hend.
  - intros stem. unfold detect_archive_type.
    rewrite (endswith_other ".tar.gz" ".zip" stem "z" _ "p" _ eq_refl eq_refl) by done.
    rewrite (endswith_other ".tgz" ".zip" stem "z" _ "p" _ eq_refl eq_refl) by done.
    rewrite (endswith_other ".tar" ".zip" stem "r" _ "p" _ eq_refl eq_refl) by done.
    rewrite (endswith_app stem ".zip"). cbn [orb].
    destruct (String.eqb_spec (stem +:+ ".zip") "!tarball") as [Heq|Hne]; [|done].
    exfalso. assert (Text.endswith ".zip" "!tarball" = true) as Hend
      by (rewrite <- Heq; apply endswith_app). by vm_compute in Hend.
  - intros name ft. unfold detect_archive_type, archive_types.
    repeat (match goal with |- context [if ?b then _ else _] => destruct b end);
      intros [= <-]; set_solver.
Qed.

Section ExtractionFailures.

Variable fnmatch : string → string → bool.
Variable tar_members : string → string → option (list member).
Variable zip_members : string → option (list member).









End ExtractionFailures.


(** ** Permission bits of extracted files *)

Lemma land_low_bits mode mask :
  Z.land 511 mask = mask → Z.land mode mask = Z.land (mode mod 512) mask.
Proof.
  intros Hmask. rewrite <- Hmask at 1. rewrite Z.land_assoc.
  change 511 with (Z.ones 9). by rewrite Z.land_ones by lia.
Qed.

Lemma data_filter_mode_low mode :
  data_filter_mode mode = data_filter_mode (mode mod 512).
Proof.
  unfold data_filter_mode. by rewrite (land_low_bits mode 493) by done.
Qed.

Lemma below_512 (P : Z → bool) k :
  forallb P (List.map Z.of_nat (seq 0 512)) = true → 0 ≤ k < 512 → P k = true.
Proof.
  intros Hall Hk. rewrite forallb_forall in Hall. apply Hall.
  apply in_map_iff. exists (Z.to_nat k). split; [lia|].
  apply in_seq. lia.
Qed.

Lemma data_filter_mode_bits mode :
  0 ≤ data_filter_mode mode < 512
  ∧ Z.land (data_filter_mode mode) 18 = 0
  ∧ Z.land (data_filter_mode mode) 384 = 384
  ∧ (Z.land mode 64 = 0 → Z.land (data_filter_mode mode) exec_bits = 0)
  ∧ (Z.land mode 64 ≠ 0 →
       Z.land (data_filter_mode mode) exec_bits = Z.land mode exec_bits).
Proof.
  rewrite data_filter_mode_low, (land_low_bits mode 64), (land_low_bits mode exec_bits)
    by done.
  assert (0 ≤ mode mod 512 < 512) as Hk by (apply Z.mod_pos_bound; lia).
  revert Hk. generalize (mode mod 512). intros k Hk.
  pose proof (below_512
    (fun k => (0 <=? data_filter_mode k) && (data_filter_mode k <? 512)
              && (Z.land (data_filter_mode k) 18 =? 0)
              && (Z.land (data_filter_mode k) 384 =? 384)
              && (if Z.land k 64 =? 0
                  then Z.land (data_filter_mode k) exec_bits =? 0
                  else Z.land (data_filter_mode k) exec_bits =? Z.land k exec_bits))
    k ltac:(vm_compute; reflexivity) Hk) as H.
  cbv beta in H. rewrite !andb_true_iff in H.
  destruct H as ((((H1 & H2) & H3) & H4) & H5).
  split; [lia|]. split; [lia|]. split; [lia|].
  destruct (Z.eqb_spec (Z.land k 64) 0) as [Heq|Hne]; split; intros ?; try done; lia.
Qed.


Lemma getmember_elem_of n ms mem : getmember n ms = Some mem → mem ∈ ms.
Proof.
  unfold getmember. intros H. apply find_some in H as [H _].
  apply list_elem_of_In. by apply in_rev.
Qed.

Lemma rmdir_bottom_up_subset passes root f q x :
  rmdir_bottom_up passes root f !! q = Some x → f !! q = Some x.
Proof.
  revert f. induction passes as [|k IH]; intros f; cbn [rmdir_bottom_up]; [done|].
  intros H%IH. unfold rmdir_empty in H. by apply map_lookup_filter_Some in H as [H _].
Qed.

Lemma for_each_invariant {A} (I : world → Prop) (body : A → M unit) xs w1 o w2 :
  (∀ x w3 o3 w4, x ∈ xs → body x w3 = (o3, w4) → I w3 → I w4) →
  for_each body xs w1 = (o, w2) → I w1 → I w2.
Proof.
  revert w1. induction xs as [|x xs IH]; intros w1 Hbody Hrun H; cbn in Hrun.
  - unfold ret in Hrun. by simplify_eq.
  - unfold bind in Hrun. destruct (body x w1) as [[[]|e] w3] eqn:Eb.
    + apply (IH w3); [|done|].
      * intros y w4 o4 w5 Hy. apply Hbody. by right.
      * eapply Hbody; [by left|exact Eb|done].
    + simplify_eq. eapply Hbody; [by left|exact Eb|done].
Qed.

Lemma each_file_kept P w1 w2 :
  (∀ q d m, fs w2 !! q = Some (File d m) → ∃ q0, fs w1 !! q0 = Some (File d m)) →
  each_file P w1 → each_file P w2.
Proof. intros Hsub H q d m Hq. destruct (Hsub _ _ _ Hq) as [q0 Hq0]. by eapply H. Qed.

Lemma each_file_insert P w1 target d m :
  P d m → each_file P w1 →
  each_file P (set_fs (<[target := File d m]> (fs w1)) w1).
Proof.
  intros Hnew H q d' m'. cbn [fs set_fs]. destruct (decide (q = target)) as [->|Hne].
  - rewrite lookup_insert_eq. by intros [= <- <-].
  - rewrite lookup_insert_ne by done. apply H.
Qed.

Lemma each_file_mkdir_each P qs w1 o w2 :
  mkdir_each qs w1 = (o, w2) → each_file P w1 → each_file P w2.
Proof.
  revert w1. induction qs as [|p qs IH]; intros w1 Hrun H; cbn in Hrun.
  - unfold ret in Hrun. by simplify_eq.
  - unfold bind in Hrun.
    destruct (mkdir_one_cases p w1) as [[E _]|[(E & Hp & Hnone)|[E _]]];
      rewrite E in Hrun.
    + by apply (IH w1).
    + apply (IH _ Hrun). apply (each_file_kept _ w1); [|done].
      intros q d m. cbn [fs set_fs]. destruct (decide (q = p)) as [->|Hne].
      * by rewrite lookup_insert_eq.
      * rewrite lookup_insert_ne by done. eauto.
    + by simplify_eq.
Qed.

Lemma each_file_move_file P src dst w1 o w2 :
  move_file src dst w1 = (o, w2) → each_file P w1 → each_file P w2.
Proof.
  intros Hrun H. unfold move_file in Hrun.
  destruct (fs w1 !! src) as [[data mode|]|] eqn:Hsrc; [|by simplify_eq..].
  assert (∀ t, each_file P
                 (set_fs (<[t := File data mode]> (delete src (fs w1))) w1)) as Hmove.
  { intros t q d m. cbn [fs set_fs]. destruct (decide (q = t)) as [->|Hne].
    - rewrite lookup_insert_eq. intros [= <- <-]. by eapply H.
    - rewrite lookup_insert_ne by done. intros [_ Hq]%lookup_delete_Some.
      by eapply H. }
  destruct (fs w1 !! dst) as [[? ?|]|]; [by simplify_eq| |by simplify_eq].
  destruct (bool_decide _); by simplify_eq.
Qed.

Lemma each_file_flatten P dest w1 o w2 :
  flatten_extracted_files dest w1 = (o, w2) → each_file P w1 → each_file P w2.
Proof.
  unfold flatten_extracted_files, bind. intros Hrun H.
  destruct (for_each _ _ w1) as [[[]|e] w3] eqn:Ef.
  all: assert (each_file P w3) as H3;
    [ eapply (for_each_invariant (each_file P)); [|exact Ef|done];
      intros p w4 o4 w5 _; apply each_file_move_file |].
  - simplify_eq. apply (each_file_kept _ w3); [|done]. intros q d m. cbn [fs set_fs].
    intros Hq%rmdir_bottom_up_subset. eauto.
  - by simplify_eq.
Qed.

Lemma each_file_write_member P dest refusal put ms n w1 o w2 :
  (∀ target m w3 o3 w4, m ∈ ms → put target m w3 = (o3, w4) →
                        each_file P w3 → each_file P w4) →
  write_member dest refusal put ms n w1 = (o, w2) →
  each_file P w1 → each_file P w2.
Proof.
  intros Hput Hrun H. unfold write_member in Hrun.
  destruct (getmember n ms) as [mem|] eqn:Eg;
    [|unfold raise in Hrun; by simplify_eq].
  destruct (member_target mem dest) as [target|];
    [|unfold raise in Hrun; by simplify_eq].
  unfold bind in Hrun. destruct (mkdir_parent target w1) as [[[]|e] w3] eqn:Em.
  - eapply Hput; [by eapply getmember_elem_of|exact Hrun|].
    by eapply each_file_mkdir_each.
  - simplify_eq. by eapply each_file_mkdir_each.
Qed.

Lemma each_file_put_tar_member P target m w1 o w2 :
  P (member_data m) (data_filter_mode (member_mode m)) →
  put_tar_member target m w1 = (o, w2) → each_file P w1 → each_file P w2.
Proof.
  intros Hnew. unfold put_tar_member.
  destruct (fs w1 !! target) as [[? ?|]|]; intros [= <- <-] H;
    [by apply each_file_insert|done|by apply each_file_insert].
Qed.

Lemma each_file_put_zip_member P target m w1 o w2 :
  (∀ d0 m0, P d0 m0 → P (member_data m) m0) → P (member_data m) default_mode →
  put_zip_member target m w1 = (o, w2) → each_file P w1 → each_file P w2.
Proof.
  intros Hkeep Hnew. unfold put_zip_member, write_file.
  destruct (fs w1 !! target) as [[d0 m0|]|] eqn:Et; intros [= <- <-] H;
    [|done|by apply each_file_insert].
  apply each_file_insert; [|done]. eapply Hkeep. by eapply H.
Qed.

Section ExtractedModes.

Variable fnmatch : string → string → bool.
Variable tar_members : string → string → option (list member).
Variable zip_members : string → option (list member).

Lemma each_file_extractall P fuel write g w1 o w2 :
  (∀ n w3 o3 w4, write n w3 = (o3, w4) → each_file P w3 → each_file P w4) →
  extractall fnmatch fuel write g w1 = (o, w2) →
  each_file P w1 → each_file P w2.
Proof.
  intros Hwrite. revert g w1. induction fuel as [|fuel IH]; intros g w1 Hrun H;
    cbn [extractall] in Hrun.
  - unfold ret in Hrun. by simplify_eq.
  - destruct (resume fnmatch g) as [[m| |e0] g1].
    + unfold bind in Hrun. destruct (write m w1) as [[[]|e1] w3] eqn:Ew.
      * apply (IH g1 w3); [done|]. by eapply Hwrite.
      * simplify_eq. by eapply Hwrite.
    + unfold ret in Hrun. by simplify_eq.
    + unfold raise in Hrun. by simplify_eq.
Qed.

Lemma try_then_cases (h : error → error) (m k : M unit) w o w' :
  (rethrow h m ;; k) w = (o, w') →
  ∃ o1 w1, m w = (o1, w1) ∧ (w' = w1 ∨ k w1 = (o, w')).
Proof.
  unfold bind, rethrow. destruct (m w) as [[[]|e0] w1].
  - intros Hk. exists (Return tt), w1. auto.
  - intros [= <- <-]. exists (Raise e0), w1. auto.
Qed.

(** However [extract_asset] ends, what it leaves of regular files is
    this.  For a tar archive, every file is, bytes and permission bits, a
    file there was before, or has the bits the ["data"] filter leaves:
    none above 0o777, no write bit for group or others, read and write
    for the owner.  For a zip archive, every file has the bits of a file
    there was before (a file that is overwritten keeps its bits) or the
    default bits, which have no execute bit: a zip extraction adds no
    execute bit anywhere.  From a tar member the execute bits are kept
    when the owner has his and dropped when he has not. *)
Theorem extract_asset_written_modes archive dest opts w :
  (∀ o w', extract_asset fnmatch tar_members zip_members archive dest opts w = (o, w') →
     (filetype opts ≠ Some "zip"%string →
        each_file (fun d m => file_of w d m ∨ filtered_mode m) w')
     ∧ (filetype opts = Some "zip"%string →
          each_file (fun _ m => bits_of w m ∨ m = default_mode) w'))
  ∧ Z.land default_mode exec_bits = 0
  ∧ (∀ mode,
       filtered_mode (data_filter_mode mode)
       ∧ (Z.land mode 64 = 0 → Z.land (data_filter_mode mode) exec_bits = 0)
       ∧ (Z.land mode 64 ≠ 0 →
            Z.land (data_filter_mode mode) exec_bits = Z.land mode exec_bits)).
Proof.
  split; [|split; [done|]].
  2: { intros mode. pose proof (data_filter_mode_bits mode) as (H1 & H2 & H3 & H4 & H5).
       done. }
  intros o w' Hrun. unfold extract_asset in Hrun.
  apply try_then_cases in Hrun as (o1 & w1 & Hm & Hrest).
  assert (∀ P, each_file P w1 → each_file P w') as Hafter.
  { intros P H1. destruct Hrest as [->|Hk]; [done|]. destruct (flatten opts).
    - by eapply each_file_flatten.
    - unfold ret in Hk. by simplify_eq. }
  assert (each_file (fun d m => file_of w d m ∨ filtered_mode m) w) as Htar0.
  { intros q d m Hq. left. by exists q. }
  assert (each_file (fun (_ : string) m => bits_of w m ∨ m = default_mode) w) as Hzip0.
  { intros q d m Hq. left. by exists q, d. }
  assert (∀ P ms o2 w2,
            extractall fnmatch (S (length ms))
              (write_member dest FilterError put_tar_member ms)
              (filter_files (List.map member_name ms) (globs opts)) w = (o2, w2) →
            (∀ d mode, P d (data_filter_mode mode)) →
            each_file P w → each_file P w2) as Halltar.
  { intros P ms o2 w2 Hx Hnew. apply (each_file_extractall _ _ _ _ _ _ _ ) with (2 := Hx).
    intros n w3 o3 w4. apply each_file_write_member.
    intros target m w5 o5 w6 _. apply each_file_put_tar_member. apply Hnew. }
  assert (∀ P ms o2 w2,
            extractall fnmatch (S (length ms))
              (write_member dest ValueError put_zip_member ms)
              (filter_files (List.map member_name ms) (globs opts)) w = (o2, w2) →
            (∀ d0 d m0, P d0 m0 → P d m0) → (∀ d, P d default_mode) →
            each_file P w → each_file P w2) as Hallzip.
  { intros P ms o2 w2 Hx Hkeep Hnew.
    apply (each_file_extractall _ _ _ _ _ _ _ ) with (2 := Hx).
    intros n w3 o3 w4. apply each_file_write_member.
    intros target m w5 o5 w6 _. apply each_file_put_zip_member; eauto. }
  revert Hm.
  destruct (bool_decide (filetype opts = Some "tar.gz"%string)) eqn:Egz;
    [|destruct (bool_decide (filetype opts = Some "tar"%string)) eqn:Etar;
      [|destruct (bool_decide (filetype opts = Some "zip"%string)) eqn:Ezip]];
    cbn [orb].
  4: { unfold raise. intros [= <- <-]. split; intros _; by apply Hafter. }
  all: unfold bind, read_file;
    destruct (fs w !! archive) as [[data m|]|];
    [|intros [= <- <-]; split; intros _; by apply Hafter..].
  - apply bool_decide_eq_true in Egz.
    destruct (tar_members "r:gz" data) as [ms|];
      [|unfold raise; intros [= <- <-]; split; intros _; by apply Hafter].
    intros Hx. split; [intros _|by rewrite Egz]. apply Hafter.
    eapply Halltar; [exact Hx| |done].
    intros d mode. right. pose proof (data_filter_mode_bits mode) as (?&?&?&_). done.
  - apply bool_decide_eq_true in Etar.
    destruct (tar_members "r" data) as [ms|];
      [|unfold raise; intros [= <- <-]; split; intros _; by apply Hafter].
    intros Hx. split; [intros _|by rewrite Etar]. apply Hafter.
    eapply Halltar; [exact Hx| |done].
    intros d mode. right. pose proof (data_filter_mode_bits mode) as (?&?&?&_). done.
  - apply bool_decide_eq_true in Ezip.
    destruct (zip_members data) as [ms|];
      [|unfold raise; intros [= <- <-]; split; intros _; by apply Hafter].
    intros Hx. split; [by intros Hne|intros _]. apply Hafter.
    eapply Hallzip; [exact Hx| | |done].
    + intros d0 d m0 H. exact H.
    + intros d. by right.
Qed.

End ExtractedModes.

(** ** read_config *)

(** [read_config] changes nothing.  A [mazette.toml] that is there
    decides: its declarations are returned whatever [pyproject.toml]
    holds, and one that cannot be loaded is an error, with no fall-back.
    The errors are the could-not-load error of either file, the two
    missing-configuration errors, and a type error, which is what a
    [pyproject.toml] whose [tool] entry is no table gives. *)
Theorem read_config_failures w :
  snd (read_config w) = w
  ∧ (∀ config, config_file w = Holds config → fst (read_config w) = Return config)
  ∧ (config_file w = Unparsable →
       fst (read_config w) = Raise (ConfigNotLoaded CONFIG_FILE))
  ∧ (∀ e, fst (read_config w) = Raise e →
       e = ConfigNotLoaded CONFIG_FILE ∨ e = ConfigNotLoaded PYPROJECT_FILE
       ∨ e = MissingToolSection ∨ e = MissingConfig ∨ e = TypeError)
  ∧ (∀ d tool, config_file w = Absent →
       pyproject_file w = Holds (Json.VDict d) →
       Json.assoc_get "tool" d = Some tool →
       (∀ t, tool ≠ Json.VDict t) →
       fst (read_config w) = Raise TypeError).
Proof.
  assert (∀ v k e, subscript v k = Raise e → e = KeyError k ∨ e = TypeError) as Hsub.
  { intros v k e. unfold subscript. destruct v; try (intros [= <-]; by right).
    destruct (Json.assoc_get k _); [done|]. intros [= <-]. by left. }
  unfold read_config. repeat split.
  - destruct (config_file w); [|done..]. destruct (pyproject_file w) as [| |config]; [done..|].
    destruct (subscript config "tool") as [tool|e] eqn:Et.
    + destruct (subscript tool "mazette") as [s|e] eqn:Em; [done|].
      by destruct (Hsub _ _ _ Em) as [->| ->].
    + by destruct (Hsub _ _ _ Et) as [->| ->].
  - intros config ->. done.
  - intros ->. done.
  - intros e. destruct (config_file w); [|intros [= <-]; auto|done].
    destruct (pyproject_file w) as [| |config]; [intros [= <-]; auto 6..|].
    destruct (subscript config "tool") as [tool|e0] eqn:Et.
    + destruct (subscript tool "mazette") as [s|e1] eqn:Em; [done|].
      destruct (Hsub _ _ _ Em) as [->| ->]; intros [= <-]; auto 6.
    + destruct (Hsub _ _ _ Et) as [->| ->]; intros [= <-]; auto 6.
  - intros d tool -> -> Htool Hnot. cbn [subscript]. rewrite Htool.
    destruct tool as [| | | | |t]; try done. by destruct (Hnot t).
Qed.

(** ** Installing by extraction *)

Lemma below_from_same_files dest held w1 w2 :
  (∀ q d m, fs w2 !! q = Some (File d m) → fs w1 !! q = Some (File d m)) →
  below_from dest held w1 → below_from dest held w2.
Proof. intros Hsub H q d m Hu Hq. apply (H q d m Hu). by apply Hsub. Qed.

Lemma below_from_mkdir_each dest held qs w1 o w2 :
  mkdir_each qs w1 = (o, w2) → below_from dest held w1 → below_from dest held w2.
Proof.
  revert w1. induction qs as [|p qs IH]; intros w1 Hrun H; cbn in Hrun.
  - unfold ret in Hrun. by simplify_eq.
  - unfold bind in Hrun.
    destruct (mkdir_one_cases p w1) as [[E _]|[(E & Hp & Hnone)|[E _]]];
      rewrite E in Hrun.
    + by apply (IH w1).
    + apply (IH _ Hrun). apply (below_from_same_files _ _ w1); [|done].
      intros q d m. cbn [fs set_fs]. destruct (decide (q = p)) as [->|Hne].
      * by rewrite lookup_insert_eq.
      * by rewrite lookup_insert_ne.
    + by simplify_eq.
Qed.

Lemma put_member_cases target m w3 o w4 :
  put_tar_member target m w3 = (o, w4) ∨ put_zip_member target m w3 = (o, w4) →
  w4 = w3 ∨ ∃ mode, w4 = set_fs (<[target := File (member_data m) mode]> (fs w3)) w3.
Proof.
  unfold put_tar_member, put_zip_member, write_file.
  intros [H|H]; destruct (fs w3 !! target) as [[? ?|]|]; simplify_eq; eauto.
Qed.

Lemma below_from_write_member dest held refusal put ms n w1 o w2 :
  (∀ target m w3 o3 w4, put target m w3 = (o3, w4) →
     w4 = w3 ∨ ∃ mode, w4 = set_fs (<[target := File (member_data m) mode]> (fs w3)) w3) →
  (∀ mem, mem ∈ ms → held (member_data mem)) →
  write_member dest refusal put ms n w1 = (o, w2) →
  below_from dest held w1 → below_from dest held w2.
Proof.
  intros Hput Hms Hrun H. unfold write_member in Hrun.
  destruct (getmember n ms) as [mem|] eqn:Eg;
    [|unfold raise in Hrun; by simplify_eq].
  destruct (member_target mem dest) as [target|];
    [|unfold raise in Hrun; by simplify_eq].
  unfold bind in Hrun. destruct (mkdir_parent target w1) as [[[]|e] w3] eqn:Em.
  - assert (below_from dest held w3) as H3 by by eapply below_from_mkdir_each.
    destruct (Hput _ _ _ _ _ Hrun) as [->|[mode ->]]; [done|].
    intros q d m Hu. cbn [fs set_fs]. destruct (decide (q = target)) as [->|Hne].
    + rewrite lookup_insert_eq. intros [= <- <-].
      apply Hms. by eapply getmember_elem_of.
    + rewrite lookup_insert_ne by done. by apply H3.
  - simplify_eq. by eapply below_from_mkdir_each.
Qed.

Lemma below_from_move_file dest held src dst w1 o w2 :
  under dest src = true →
  move_file src dst w1 = (o, w2) → below_from dest held w1 → below_from dest held w2.
Proof.
  intros Hsrc Hrun H. unfold move_file in Hrun.
  destruct (fs w1 !! src) as [[data mode|]|] eqn:Es; [|by simplify_eq..].
  assert (held data) as Hdata by by eapply H.
  assert (∀ t, below_from dest held
                 (set_fs (<[t := File data mode]> (delete src (fs w1))) w1)) as Hmove.
  { intros t q d m Hu. cbn [fs set_fs]. destruct (decide (q = t)) as [->|Hne].
    - rewrite lookup_insert_eq. by intros [= <- <-].
    - rewrite lookup_insert_ne by done. intros [_ Hq]%lookup_delete_Some.
      by apply (H q d m). }
  destruct (fs w1 !! dst) as [[? ?|]|]; [by simplify_eq| |by simplify_eq].
  destruct (bool_decide _); by simplify_eq.
Qed.

Lemma below_from_flatten dest held w1 o w2 :
  flatten_extracted_files dest w1 = (o, w2) →
  below_from dest held w1 → below_from dest held w2.
Proof.
  unfold flatten_extracted_files, bind. intros Hrun H.
  destruct (for_each _ _ w1) as [[[]|e] w3] eqn:Ef.
  all: assert (below_from dest held w3) as H3;
    [ eapply (for_each_invariant (below_from dest held)); [|exact Ef|done];
      intros p w4 o4 w5 Hp; apply below_from_move_file;
      apply list_elem_of_In, filter_In in Hp as [Hp _];
      by apply list_elem_of_In, files_under_spec in Hp as (? & ? & _ & ?) |].
  - simplify_eq. apply (below_from_same_files _ _ w3); [|done].
    intros q d m. cbn [fs set_fs]. apply rmdir_bottom_up_subset.
  - by simplify_eq.
Qed.

Lemma download_to_cache_keeps_dirs url w p w1 q :
  download_to_cache url w = (Return p, w1) →
  fs w !! q = Some Dir → fs w1 !! q = Some Dir.
Proof.
  intros H Hq.
  destruct (download_to_cache_Return _ _ _ _ H)
    as (_ & _ & [(w0 & Hc & _ & ->)|(w0 & r & Hc & Hnone & Hr & Hcut & ->)]);
    destruct (cache_file_path_Return _ _ _ _ Hc) as (_ & _ & Hadds);
    destruct Hadds as (_ & _ & _ & _ & _ & _ & Hkeep & _);
    pose proof (Hkeep _ _ Hq) as Hq0; [done|].
  rewrite (download_to_cache_miss _ _ _ _ Hc Hnone), Hr in H.
  destruct (_ && _); [done|]. rewrite Hcut in H.
  destruct (downloaded_facts url p r w0) as (_ & _ & _ & _ & Hother).
  rewrite Hother; [done| |].
  - intros ->. by rewrite Hnone in Hq0.
  - intros ->. by rewrite Hq0 in H.
Qed.

Section InstallByExtraction.

Variable fnmatch : string → string → bool.
Variable tar_members : string → string → option (list member).
Variable zip_members : string → option (list member).

Lemma below_from_extractall dest held fuel write g w1 o w2 :
  (∀ n w3 o3 w4, write n w3 = (o3, w4) →
                 below_from dest held w3 → below_from dest held w4) →
  extractall fnmatch fuel write g w1 = (o, w2) →
  below_from dest held w1 → below_from dest held w2.
Proof.
  intros Hwrite. revert g w1. induction fuel as [|fuel IH]; intros g w1 Hrun H;
    cbn [extractall] in Hrun.
  - unfold ret in Hrun. by simplify_eq.
  - destruct (resume fnmatch g) as [[m| |e0] g1].
    + unfold bind in Hrun. destruct (write m w1) as [[[]|e1] w3] eqn:Ew.
      * apply (IH g1 w3); [done|]. by eapply Hwrite.
      * simplify_eq. by eapply Hwrite.
    + unfold ret in Hrun. by simplify_eq.
    + unfold raise in Hrun. by simplify_eq.
Qed.

Lemma try_then_Return (h : error → error) (m k : M unit) w w' :
  (rethrow h m ;; k) w = (Return tt, w') →
  ∃ w1, m w = (Return tt, w1) ∧ k w1 = (Return tt, w').
Proof.
  unfold bind, rethrow. destruct (m w) as [[[]|e0] w1]; [|done].
  intros Hk. by exists w1.
Qed.

Lemma extract_asset_Return archive dest opts w w' :
  extract_asset fnmatch tar_members zip_members archive dest opts w = (Return tt, w') →
  (∀ q d m, under dest q = true → fs w !! q ≠ Some (File d m)) →
  ∃ data mode ms,
    fs w !! archive = Some (File data mode)
    ∧ (tar_members "r:gz" data = Some ms ∨ tar_members "r" data = Some ms
       ∨ zip_members data = Some ms)
    ∧ below_from dest (fun d => ∃ mem, mem ∈ ms ∧ d = member_data mem) w'.
Proof.
  intros Hrun Hclean. unfold extract_asset in Hrun.
  apply try_then_Return in Hrun as (w1 & Hm & Hk).
  assert (∃ data mode ms,
            fs w !! archive = Some (File data mode)
            ∧ (tar_members "r:gz" data = Some ms ∨ tar_members "r" data = Some ms
               ∨ zip_members data = Some ms)
            ∧ below_from dest (fun d => ∃ mem, mem ∈ ms ∧ d = member_data mem) w1)
    as (data & mode & ms & Ha & Hms & H1).
  { assert (∀ refusal put ms,
              (∀ target m w3 o3 w4, put target m w3 = (o3, w4) →
                 put_tar_member target m w3 = (o3, w4)
                 ∨ put_zip_member target m w3 = (o3, w4)) →
              extractall fnmatch (S (length ms)) (write_member dest refusal put ms)
                (filter_files (List.map member_name ms) (globs opts)) w = (Return tt, w1) →
              below_from dest (fun d => ∃ mem, mem ∈ ms ∧ d = member_data mem) w1)
      as Hall.
    { intros refusal put ms Hput Hx. eapply below_from_extractall; [|exact Hx|].
      - intros n w3 o3 w4. apply below_from_write_member; [|eauto].
        intros target m w5 o5 w6 Hp. by eapply put_member_cases, Hput.
      - intros q d m Hu Hq. by destruct (Hclean q d m Hu). }
    revert Hm.
    destruct (bool_decide (filetype opts = Some "tar.gz"%string)) eqn:Egz;
      [|destruct (bool_decide (filetype opts = Some "tar"%string)) eqn:Etar;
        [|destruct (bool_decide (filetype opts = Some "zip"%string)) eqn:Ezip]];
      cbn [orb].
    4: done.
    all: unfold bind, read_file;
      destruct (fs w !! archive) as [[data mode|]|]; [|done..].
    - destruct (tar_members "r:gz" data) as [ms|] eqn:Et; [|done].
      intros Hx. exists data, mode, ms. split; [done|]. split; [auto|].
      eapply Hall; [|exact Hx]. auto.
    - destruct (tar_members "r" data) as [ms|] eqn:Et; [|done].
      intros Hx. exists data, mode, ms. split; [done|]. split; [auto|].
      eapply Hall; [|exact Hx]. auto.
    - destruct (zip_members data) as [ms|] eqn:Et; [|done].
      intros Hx. exists data, mode, ms. split; [done|]. split; [auto|].
      eapply Hall; [|exact Hx]. auto. }
  exists data, mode, ms. split; [done|]. split; [done|].
  destruct (flatten opts).
  - by eapply below_from_flatten.
  - unfold ret in Hk. by simplify_eq.
Qed.

(** Installing by extraction over a directory that is there: when the
    install returns, every regular file below the destination has the
    bytes of a member of one archive, and the SHA-256 of that archive is
    the checksum of the lock entry; nothing that was below the
    destination before is left. *)
Theorem install_asset_extracts_verified_archive
    name platform asset_dict asset opts w w' :
  platform_entry platform asset_dict = Some asset →
  extract asset = Some opts →
  fs w !! destination asset = Some Dir →
  install_asset fnmatch tar_members zip_members name platform asset_dict w
  = (Return tt, w') →
  ∃ data ms,
    Sha256.hexdigest data = checksum asset
    ∧ (tar_members "r:gz" data = Some ms ∨ tar_members "r" data = Some ms
       ∨ zip_members data = Some ms)
    ∧ ∀ q d m, under (destination asset) q = true →
               fs w' !! q = Some (File d m) →
               ∃ mem, mem ∈ ms ∧ d = member_data mem.
Proof.
  intros Hentry Hext Hdir H. unfold install_asset in H.
  unfold platform_entry in Hentry. rewrite Hentry, Hext in H.
  destruct (download_to_cache_and_verify (download_url asset) (checksum asset) w)
    as [[p|e] w1] eqn:Ev; [|by rewrite (bind_Raise _ _ _ _ _ Ev) in H].
  rewrite (bind_Return _ _ _ _ _ Ev) in H.
  destruct (verify_Return _ _ _ _ _ Ev)
    as (Hslot & data & mode & Hblob & Hsum & w0 & Hd & Hfs).
  set (dest := destination asset) in *.
  assert (fs w1 !! dest = Some Dir) as Hdir1.
  { rewrite Hfs. by eapply download_to_cache_keeps_dirs. }
  unfold bind at 1 in H. unfold path_exists at 1 in H.
  rewrite bool_decide_eq_true_2 in H by (rewrite Hdir1; eauto).
  unfold bind at 1 in H. unfold bind at 1 in H. unfold path_is_dir at 1 in H.
  rewrite Hdir1 in H. unfold rmtree at 1 in H.
  set (w2 := set_fs _ w1) in H.
  assert (at_most p (File data mode) w2) as Hp2.
  { eapply (at_most_rmtree _ _ dest w1); [reflexivity|by left]. }
  assert (∀ q d m, under dest q = true → fs w2 !! q ≠ Some (File d m)) as Hclean2.
  { intros q d m Hu Hq. unfold w2 in Hq. cbn [fs set_fs] in Hq.
    apply map_lookup_filter_Some in Hq as [_ [_ Hq]]. cbn in Hq. congruence. }
  unfold bind at 1 in H.
  destruct (mkdir_parents dest w2) as [[[]|e] w3] eqn:Em; [|done].
  assert (at_most p (File data mode) w3) as Hp3 by by eapply at_most_mkdir_each.
  assert (∀ q d m, under dest q = true → fs w3 !! q ≠ Some (File d m)) as Hclean3.
  { intros q d m Hu Hq.
    assert (below_from dest (fun _ => False) w3) as Hb; [|by eapply Hb].
    eapply below_from_mkdir_each; [exact Em|].
    intros q' d' m' Hu' Hq'. by eapply Hclean2. }
  destruct (extract_asset_Return _ _ _ _ _ H Hclean3)
    as (data' & mode' & ms & Ha & Hms & Hbelow).
  assert (data' = data) as ->.
  { destruct Hp3 as [Hp3|[Hp3|Hp3]]; rewrite Hp3 in Ha; by simplify_eq. }
  exists data, ms. split; [done|]. split; [done|]. exact Hbelow.
Qed.

(** An entry that extracts is installed the same way whatever its
    executable flag is: the flag is read on the copy path only. *)
Theorem install_asset_flag_only_on_copy name platform asset_dict asset flag w :
  platform_entry platform asset_dict = Some asset →
  extract asset ≠ None →
  install_asset fnmatch tar_members zip_members name platform asset_dict w
  = install_asset fnmatch tar_members zip_members name platform
      [(platform, with_executable flag asset)] w.
Proof.
  intros Hentry Hext. unfold install_asset.
  unfold platform_entry in Hentry. rewrite Hentry.
  cbn [Json.assoc_get]. rewrite String.eqb_refl.
  destruct asset as [r u v dst c exe [opts|]]; [|done]. reflexivity.
Qed.

End InstallByExtraction.

Lemma install_asset_extracts_verified_archive_witness :
  let w := set_fs {[ "out/tool"%string := Dir; "out/tool/stale"%string := File "old" 420 ]}
             archive_world in
  let w' := snd (install_asset simple_fnmatch archive_members (fun _ => None)
                   "tool" "linux/amd64"
                   [("all"%string, archive_entry true (Some extract_everything))] w) in
  ∃ data ms,
    Sha256.hexdigest data = checksum (archive_entry true (Some extract_everything))
    ∧ (archive_members "r:gz" data = Some ms ∨ archive_members "r" data = Some ms
       ∨ (fun _ => None) data = Some ms)
    ∧ ∀ q d m, under "out/tool" q = true →
               fs w' !! q = Some (File d m) →
               ∃ mem, mem ∈ ms ∧ d = member_data mem.
Proof.
  intros w w'.
  apply (install_asset_extracts_verified_archive simple_fnmatch archive_members
           (fun _ => None) "tool" "linux/amd64"
           [("all"%string, archive_entry true (Some extract_everything))]
           (archive_entry true (Some extract_everything)) extract_everything w w').
  - reflexivity.
  - reflexivity.
  - vm_compute. reflexivity.
  - vm_compute. reflexivity.
Defined.

Lemma install_asset_flag_only_on_copy_witness :
  install_asset simple_fnmatch archive_members (fun _ => None) "tool" "linux/amd64"
    [("all"%string, archive_entry true (Some extract_everything))] archive_world
  = install_asset simple_fnmatch archive_members (fun _ => None) "tool" "linux/amd64"
      [("linux/amd64"%string,
        with_executable false (archive_entry true (Some extract_everything)))]
      archive_world.
Proof.
  apply (install_asset_flag_only_on_copy simple_fnmatch archive_members (fun _ => None)
           "tool" "linux/amd64"
           [("all"%string, archive_entry true (Some extract_everything))]
           (archive_entry true (Some extract_everything)) false archive_world).
  - reflexivity.
  - intros [=].
Defined.
